(** * Tiled matrix multiplication on a CUDA device: kernel and host driver

    A shallow embedding of [multiblockShared.cpp]: the kernel
    [MatrixMulCUDA], the helper [ConstantInit], the host routine
    [MatrixMultiply] and [main].

    - C [int] and [unsigned int] values are integers in [Z]; the wrap-around
      of the [unsigned] products that size the buffers is written out.  The
      [int] index arithmetic of the kernel is exact: a launch whose indices
      pass [2^31] is outside C++ as well.
    - [float] is IEEE-754 binary32 and [double] binary64, both taken from
      the executable specification of the Standard Library ([SpecFloat]),
      rounding to nearest even.  [C_local += a * b] is a multiplication
      followed by an addition, as written.
    - Buffers are lists, read with [!!] and written with [<[_:=_]>]; an
      access outside the buffer is undefined behaviour in the source and
      yields [None] (kernel) or [Fault] (host) here.
    - The threads of a launch run in an order the program does not control.
      The order in which their stores reach global memory is an explicit
      argument of the kernel model (the schedule). *)

From Stdlib Require Import ZArith Lia Bool.
From Stdlib Require Import Floats.SpecFloat.
From stdpp Require Import base option list.

Local Open Scope Z_scope.

(** ** CUDA launch geometry *)

Record dim3 := Dim3 { dim_x : Z; dim_y : Z; dim_z : Z }.

(** One thread of a launch: [blockIdx.x], [blockIdx.y], [threadIdx.x],
    [threadIdx.y]. *)
Record thread := Thread {
  blockIdx_x : Z;
  blockIdx_y : Z;
  threadIdx_x : Z;
  threadIdx_y : Z
}.

Definition zrange (n : Z) : list Z := map Z.of_nat (seq 0 (Z.to_nat n)).

(** All threads of a launch [<<< gridDim, blockDim >>>], block after block. *)
Definition grid_threads (gridDim blockDim : dim3) : list thread :=
  by_ ← zrange (dim_y gridDim);
  bx ← zrange (dim_x gridDim);
  ty ← zrange (dim_y blockDim);
  tx ← zrange (dim_x blockDim);
  [Thread bx by_ tx ty].

(** ** The kernel *)

Section Kernel.
Context {val : Type}.
Variable vzero : val.
Variables vadd vmul : val → val → val.

(** The template parameter and the built-in [blockDim]. *)
Variable BLOCK_SIZE : Z.
Variable blockDim : dim3.

(** The kernel arguments [A], [B], [wA], [wB]. *)
Variables A B : list val.
Variables wA wB : Z.

Definition global_load (buf : list val) (i : Z) : option val :=
  if i <? 0 then None else buf !! Z.to_nat i.

Definition global_store (buf : list val) (i : Z) (v : val) : option (list val) :=
  if (0 <=? i) && (i <? Z.of_nat (length buf))
  then Some (<[Z.to_nat i := v]> buf)
  else None.

(** [int row = by * blockDim.y + ty; int col = bx * blockDim.x + tx;] *)
Definition row (t : thread) : Z := blockIdx_y t * dim_y blockDim + threadIdx_y t.
Definition col (t : thread) : Z := blockIdx_x t * dim_x blockDim + threadIdx_x t.

(** The three global indices of the kernel body:
    [A[row * wA + m*BLOCK_SIZE + tx]], [B[(m*BLOCK_SIZE + ty)*wA + col]]
    and [C[row*wA + col]]. *)
Definition A_index (t : thread) (m : Z) : Z :=
  row t * wA + m * BLOCK_SIZE + threadIdx_x t.
Definition B_index (t : thread) (m : Z) : Z :=
  (m * BLOCK_SIZE + threadIdx_y t) * wA + col t.
Definition C_index (t : thread) : Z := row t * wA + col t.

(** The [__shared__] arrays have [BLOCK_SIZE] x [BLOCK_SIZE] slots. *)
Definition in_tile (i j : Z) : bool :=
  (0 <=? i) && (i <? BLOCK_SIZE) && (0 <=? j) && (j <? BLOCK_SIZE).

Definition in_block (i j : Z) : bool :=
  (0 <=? i) && (i <? dim_x blockDim) && (0 <=? j) && (j <? dim_y blockDim).

(** The thread of [t]'s block with [threadIdx = (i, j)]. *)
Definition sibling (t : thread) (i j : Z) : thread :=
  Thread (blockIdx_x t) (blockIdx_y t) i j.

(** Contents of the shared tiles of [t]'s block between the two barriers
    of tiling step [m].  Slot [[i][j]] is written by the one thread with
    [tx = i], [ty = j] ([Ads[tx][ty] = ...], [Bds[tx][ty] = ...]) and by
    no other, so after the first [__syncthreads()] it holds what that
    thread loaded; a slot no thread of the block owns was never written. *)
Definition Ads (t : thread) (m i j : Z) : option val :=
  if in_tile i j && in_block i j
  then global_load A (A_index (sibling t i j) m)
  else None.

Definition Bds (t : thread) (m i j : Z) : option val :=
  if in_tile i j && in_block i j
  then global_load B (B_index (sibling t i j) m)
  else None.

(** [for (int k = 0; k < BLOCK_SIZE; ++k) C_local += Ads[tx][k] * Bds[k][ty];]
    with [n] iterations left. *)
Fixpoint inner_loop (n : nat) (t : thread) (m k : Z) (C_local : val) : option val :=
  match n with
  | O => Some C_local
  | S n' =>
      a ← Ads t m (threadIdx_x t) k;
      b ← Bds t m k (threadIdx_y t);
      inner_loop n' t m (k + 1) (vadd C_local (vmul a b))
  end.

(** One iteration of the tiling loop as thread [t] goes through it: its
    two loads into its own slot, the barrier, the inner loop, the barrier. *)
Definition tile_step (t : thread) (m : Z) (C_local : val) : option val :=
  if in_tile (threadIdx_x t) (threadIdx_y t) then
    _ ← global_load A (A_index t m);
    _ ← global_load B (B_index t m);
    inner_loop (Z.to_nat BLOCK_SIZE) t m 0 C_local
  else None.

(** [for (int m = 0; m < wA / BLOCK_SIZE; ++m)] with [n] iterations left. *)
Fixpoint tile_loop (n : nat) (t : thread) (m : Z) (C_local : val) : option val :=
  match n with
  | O => Some C_local
  | S n' =>
      C_local' ← tile_step t m C_local;
      tile_loop n' t (m + 1) C_local'
  end.

(** The value of [C_local] when thread [t] reaches line 67. *)
Definition thread_result (t : thread) : option val :=
  tile_loop (Z.to_nat (wA ÷ BLOCK_SIZE)) t 0 vzero.

(** [C[row*wA + col] = C_local;] *)
Definition thread_store (C : list val) (t : thread) : option (list val) :=
  v ← thread_result t;
  global_store C (C_index t) v.

(** A launch: the stores of the threads reach [C] in the order [sched]. *)
Definition launch (sched : list thread) (C : list val) : option (list val) :=
  foldl (λ oC t, C' ← oC; thread_store C' t) (Some C) sched.

End Kernel.

(** [template <int BLOCK_SIZE> __global__ void MatrixMulCUDA(float *C,
    float *A, float *B, int wA, int wB)], launched with block shape
    [blockDim] and scheduled as [sched].  The body never mentions [wB]. *)
Definition MatrixMulCUDA {val : Type} (vzero : val) (vadd vmul : val → val → val)
    (BLOCK_SIZE : Z) (blockDim : dim3) (sched : list thread)
    (C A B : list val) (wA wB : Z) : option (list val) :=
  launch vzero vadd vmul BLOCK_SIZE blockDim A B wA sched C.

(** ** IEEE-754 arithmetic of the program *)

Definition float := spec_float.
Definition double := spec_float.

Module F32.
Definition prec : Z := 24.
Definition emax : Z := 128.
Definition add : float → float → float := SFadd prec emax.
Definition sub : float → float → float := SFsub prec emax.
Definition mul : float → float → float := SFmul prec emax.
Definition zero : float := S754_zero false.
(** Conversion of an integer, as in [dimsA.x * valB]. *)
Definition of_Z (n : Z) : float := binary_normalize prec emax n 0 false.
Definition one : float := of_Z 1.
End F32.

Module F64.
Definition prec : Z := 53.
Definition emax : Z := 1024.
Definition div : double → double → double := SFdiv prec emax.
Definition of_Z (n : Z) : double := binary_normalize prec emax n 0 false.
(** [float] to [double]: exact, the value is re-normalised to 53 bits. *)
Definition of_float (f : float) : double :=
  match f with
  | S754_finite s m e => binary_round prec emax s m e
  | _ => f
  end.
(** [a > b]; false when either is a NaN. *)
Definition gt (a b : double) : bool :=
  match SFcompare a b with Some Gt => true | _ => false end.
End F64.

(** [0.01f]: the binary32 number 0x3C23D70A. *)
Definition valB : float := S754_finite false 10737418 (-30).

(** The instantiation at [float], for a template argument [BLOCK_SIZE]. *)
Definition MatrixMulCUDA_float : Z → dim3 → list thread →
    list float → list float → list float → Z → Z → option (list float) :=
  MatrixMulCUDA F32.zero F32.add F32.mul.

(** ** Host side: the process and its environment *)

Definition EXIT_SUCCESS : Z := 0.
Definition EXIT_FAILURE : Z := 1.

(** [unsigned int] results are reduced modulo [2^32]; [to_int] is the
    conversion of an [unsigned int] to [int]. *)
Definition u32 (n : Z) : Z := n mod 2 ^ 32.
Definition to_int (n : Z) : Z :=
  let m := u32 n in if m <? 2 ^ 31 then m else m - 2 ^ 32.
Definition sizeof_float : Z := 4.

Inductive hbuf := h_A | h_B | h_C.
Inductive dbuf := d_A | d_B | d_C.
Inductive cuda_event := ev_start | ev_stop.

Global Instance hbuf_eq_dec : EqDecision hbuf.
Proof. solve_decision. Defined.
Global Instance dbuf_eq_dec : EqDecision dbuf.
Proof. solve_decision. Defined.

Definition hbuf_eqb (p q : hbuf) : bool :=
  match p, q with
  | h_A, h_A | h_B, h_B | h_C, h_C => true
  | _, _ => false
  end.
Definition dbuf_eqb (p q : dbuf) : bool :=
  match p, q with
  | d_A, d_A | d_B, d_B | d_C, d_C => true
  | _, _ => false
  end.

Arguments hbuf_eqb !_ !_ /.
Arguments dbuf_eqb !_ !_ /.

(** The CUDA runtime calls the driver wraps in [checkCudaErrors]. *)
Inductive cuda_call :=
  | cudaMalloc (p : dbuf) (bytes : Z)
  | cudaMemcpyHostToDevice (dst : dbuf) (src : hbuf) (bytes : Z)
  | cudaMemcpyDeviceToHost (dst : hbuf) (src : dbuf) (bytes : Z)
  | cudaEventCreate (e : cuda_event)
  | cudaEventRecord (e : cuda_event)
  | cudaEventSynchronize (e : cuda_event)
  | cudaEventElapsedTime
  | cudaFree (p : dbuf).

(** What the program writes to the console. *)
Inductive message :=
  | MsgStarting
  | MsgUsage
  | MsgOuterDimensions (wA hB : Z)
  | MsgMatrices (dimsA dimsB : dim3)
  | MsgAllocCFailed
  | MsgCudaError (c : cuda_call)
  | MsgComputing
  | MsgDone
  | MsgPerformance (workgroup : Z)
  | MsgChecking
  | MsgError (i : Z) (value ref : float)
  | MsgResult (pass : bool)
  | MsgNote.

(** What the process does to the world around it, in program order. *)
Inductive event :=
  | Print (m : message)
  | FindDevice (ok : bool)
  | Malloc (p : hbuf) (bytes : Z) (ok : bool)
  | Free (p : hbuf)
  | Cuda (c : cuda_call) (ok : bool)
  | Received (p : hbuf) (data : list float)
  | Launch (BLOCK_SIZE : Z) (grid threads : dim3) (wA wB : Z)
  | DeviceSynchronize.

(** What the process cannot control: which allocations and runtime calls
    succeed, what fresh memory holds, and how each launch is scheduled. *)
Record environment := Environment {
  device_found : bool;
  malloc_ok : hbuf → bool;
  cuda_ok : cuda_call → bool;
  junk : nat → float;
  schedule : nat → list thread → list thread
}.

Record world := World {
  trace : list event;
  host : hbuf → option (list float);
  device : dbuf → option (list float);
  launched : nat
}.

Definition initial_world : world := World [] (λ _, None) (λ _, None) 0.

Definition log (e : event) (w : world) : world :=
  World (trace w ++ [e]) (host w) (device w) (launched w).
Definition set_host (p : hbuf) (v : option (list float)) (w : world) : world :=
  World (trace w) (λ q, if hbuf_eqb q p then v else host w q) (device w) (launched w).
Definition set_device (p : dbuf) (v : option (list float)) (w : world) : world :=
  World (trace w) (host w) (λ q, if dbuf_eqb q p then v else device w q) (launched w).
Definition count_launch (w : world) : world :=
  World (trace w) (host w) (device w) (S (launched w)).

(** A run either goes on with a value, leaves through [exit], or steps
    outside what C++ defines. *)
Inductive result (A : Type) :=
  | Done (a : A)
  | Exit (code : Z)
  | Fault.
Arguments Done {A} a.
Arguments Exit {A} code.
Arguments Fault {A}.

Definition prog (A : Type) : Type := world → result A * world.

Global Instance prog_ret : MRet prog := λ A a w, (Done a, w).
Global Instance prog_bind : MBind prog := λ A B k c w,
  match c w with
  | (Done a, w') => k a w'
  | (Exit code, w') => (Exit code, w')
  | (Fault, w') => (Fault, w')
  end.

Definition emit (e : event) : prog unit := λ w, (Done tt, log e w).
Definition printf (m : message) : prog unit := emit (Print m).
Definition exit {A : Type} (code : Z) : prog A := λ w, (Exit code, w).
Definition fault {A : Type} : prog A := λ w, (Fault, w).

(** [memcpy] of [n] elements from [src] to the start of [dst]. *)
Definition copy_floats (n : nat) (dst src : list float) : option (list float) :=
  if decide (n ≤ length src ∧ n ≤ length dst)%nat
  then Some (take n src ++ drop n dst)
  else None.

(** [for (int i = 0; i < size; ++i) data[i] = val;] with [n] iterations left. *)
Fixpoint ConstantInit_loop (n : nat) (i : Z) (data : list float) (val : float)
    : option (list float) :=
  match n with
  | O => Some data
  | S n' =>
      data' ← global_store data i val;
      ConstantInit_loop n' (i + 1) data' val
  end.

Section Host.
Variable env : environment.

Definition fresh (bytes : Z) : list float :=
  junk env <$> seq 0 (Z.to_nat (bytes / sizeof_float)).

(** [p = malloc(bytes)]: [NULL] when the allocation fails. *)
Definition malloc (p : hbuf) (bytes : Z) : prog unit := λ w,
  if malloc_ok env p
  then (Done tt, set_host p (Some (fresh bytes)) (log (Malloc p bytes true) w))
  else (Done tt, set_host p None (log (Malloc p bytes false) w)).

(** [p == NULL] *)
Definition is_NULL (p : hbuf) : prog bool := λ w,
  (Done (match host w p with Some _ => false | None => true end), w).

Definition free (p : hbuf) : prog unit := λ w,
  (Done tt, set_host p None (log (Free p) w)).

(** [void ConstantInit(float *data, int size, float val)] on the host
    buffer [p]; a store through [NULL] or past the buffer is a fault. *)
Definition ConstantInit (p : hbuf) (size : Z) (val : float) : prog unit := λ w,
  match host w p with
  | None => if 0 <? size then (Fault, w) else (Done tt, w)
  | Some data =>
      match ConstantInit_loop (Z.to_nat size) 0 data val with
      | Some data' => (Done tt, set_host p (Some data') w)
      | None => (Fault, w)
      end
  end.

(** The effect of a runtime call that succeeded. *)
Definition cuda_effect (c : cuda_call) (w : world) : option world :=
  match c with
  | cudaMalloc p bytes => Some (set_device p (Some (fresh bytes)) w)
  | cudaMemcpyHostToDevice dst src bytes =>
      from ← host w src;
      to ← device w dst;
      data ← copy_floats (Z.to_nat (bytes / sizeof_float)) to from;
      Some (set_device dst (Some data) w)
  | cudaMemcpyDeviceToHost dst src bytes =>
      from ← device w src;
      to ← host w dst;
      data ← copy_floats (Z.to_nat (bytes / sizeof_float)) to from;
      Some (log (Received dst data) (set_host dst (Some data) w))
  | cudaFree p => Some (set_device p None w)
  | _ => Some w
  end.

(** Modelled from the spec: [checkCudaErrors] comes from [helper_cuda.h],
    which is not among the sources.  The spec has device-runtime errors
    reported and fatal, the process ending with the failure code. *)
Definition checkCudaErrors (c : cuda_call) : prog unit := λ w,
  if cuda_ok env c then
    match cuda_effect c (log (Cuda c true) w) with
    | Some w' => (Done tt, w')
    | None => (Fault, log (Cuda c true) w)
    end
  else (printf (MsgCudaError c) ;; exit EXIT_FAILURE) (log (Cuda c false) w).

(** Modelled from the spec: [findCudaDevice] comes from [helper_cuda.h];
    device selection is an external collaborator that either yields a
    device or ends the process with the failure code. *)
Definition findCudaDevice : prog unit :=
  if device_found env then emit (FindDevice true)
  else emit (FindDevice false) ;; exit EXIT_FAILURE.

(** [MatrixMulCUDA<BLOCK_SIZE> <<< grid, threads >>> (d_C, d_A, d_B, wA, wB)].
    The driver does not check the launch for errors.  A launch that steps
    outside its buffers has no defined effect, and neither has the rest of
    the run. *)
Definition launch_kernel (BLOCK_SIZE : Z) (grid threads : dim3) (wA wB : Z)
    : prog unit := λ w,
  let w1 := count_launch (log (Launch BLOCK_SIZE grid threads wA wB) w) in
  match device w d_C, device w d_A, device w d_B with
  | Some C, Some A, Some B =>
      let sched := schedule env (launched w) (grid_threads grid threads) in
      match MatrixMulCUDA_float BLOCK_SIZE threads sched C A B wA wB with
      | Some C' => (Done tt, set_device d_C (Some C') w1)
      | None => (Fault, w1)
      end
  | _, _, _ => (Fault, w1)
  end.

(** Lines 127-134 and again 154-161: the choice of the instantiation. *)
Definition launch_for (block_size : Z) (grid threads dimsA dimsB : dim3)
    : prog unit :=
  if block_size =? 16
  then launch_kernel 16 grid threads (to_int (dim_x dimsA)) (to_int (dim_x dimsB))
  else launch_kernel 32 grid threads (to_int (dim_x dimsA)) (to_int (dim_x dimsB)).

(** [for (int j = 0; j < nIter; j++)] with [n] iterations left. *)
Fixpoint timed_loop (n : nat) (block_size : Z) (grid threads dimsA dimsB : dim3)
    : prog unit :=
  match n with
  | O => mret tt
  | S n' =>
      launch_for block_size grid threads dimsA dimsB ;;
      timed_loop n' block_size grid threads dimsA dimsB
  end.

Definition nIter : nat := 300.

(** [double eps = 1.e-6;] *)
Definition eps : double := F64.div (F64.of_Z 1) (F64.of_Z 1000000).

(** [dimsA.x * valB], the reference value, in [float]. *)
Definition reference (dimsA : dim3) : float :=
  F32.mul (F32.of_Z (dim_x dimsA)) valB.

(** Lines 199-202. *)
Definition rel_err (c : float) (dimsA : dim3) : double :=
  let abs_err := SFabs (F64.of_float (F32.sub c (reference dimsA))) in
  let dot_length := F64.of_Z (dim_x dimsA) in
  let abs_val := SFabs (F64.of_float c) in
  F64.div (F64.div abs_err abs_val) dot_length.

Definition out_of_tolerance (c : float) (dimsA : dim3) : bool :=
  F64.gt (rel_err c dimsA) eps.

(** [for (int i = 0; i < static_cast<int>(dimsC.x * dimsC.y); i++)] with
    [n] iterations left and the flag [correct]. *)
Fixpoint check_loop (n : nat) (i : Z) (dimsA : dim3) (correct : bool)
    : prog bool :=
  match n with
  | O => mret correct
  | S n' => λ w,
      match host w h_C ≫= (λ data, global_load data i) with
      | None => (Fault, w)
      | Some c =>
          if out_of_tolerance c dimsA
          then (printf (MsgError i c (reference dimsA)) ;;
                check_loop n' (i + 1) dimsA false) w
          else check_loop n' (i + 1) dimsA correct w
      end
  end.

(** [int MatrixMultiply(int argc, char **argv, int block_size,
    const dim3 &dimsA, const dim3 &dimsB)] *)
Definition MatrixMultiply (block_size : Z) (dimsA dimsB : dim3) : prog Z :=
  let size_A := u32 (dim_x dimsA * dim_y dimsA) in
  let mem_size_A := u32 (sizeof_float * size_A) in
  malloc h_A mem_size_A ;;
  let size_B := u32 (dim_x dimsB * dim_y dimsB) in
  let mem_size_B := u32 (sizeof_float * size_B) in
  malloc h_B mem_size_B ;;
  ConstantInit h_A (to_int size_A) F32.one ;;
  ConstantInit h_B (to_int size_B) valB ;;
  let dimsC := Dim3 (dim_x dimsB) (dim_y dimsA) 1 in
  let mem_size_C := u32 (u32 (dim_x dimsC * dim_y dimsC) * sizeof_float) in
  malloc h_C mem_size_C ;;
  h_C_is_NULL ← is_NULL h_C;
  (if h_C_is_NULL : bool then printf MsgAllocCFailed ;; exit EXIT_FAILURE
   else mret tt) ;;
  checkCudaErrors (cudaMalloc d_A mem_size_A) ;;
  checkCudaErrors (cudaMalloc d_B mem_size_B) ;;
  checkCudaErrors (cudaMalloc d_C mem_size_C) ;;
  checkCudaErrors (cudaMemcpyHostToDevice d_A h_A mem_size_A) ;;
  checkCudaErrors (cudaMemcpyHostToDevice d_B h_B mem_size_B) ;;
  let threads := Dim3 (u32 block_size) (u32 block_size) 1 in
  (if (dim_x threads =? 0) || (dim_y threads =? 0) then fault else mret tt) ;;
  let grid := Dim3 (dim_x dimsB / dim_x threads) (dim_y dimsA / dim_y threads) 1 in
  printf MsgComputing ;;
  launch_for block_size grid threads dimsA dimsB ;;
  printf MsgDone ;;
  emit DeviceSynchronize ;;
  checkCudaErrors (cudaEventCreate ev_start) ;;
  checkCudaErrors (cudaEventCreate ev_stop) ;;
  checkCudaErrors (cudaEventRecord ev_start) ;;
  timed_loop nIter block_size grid threads dimsA dimsB ;;
  checkCudaErrors (cudaEventRecord ev_stop) ;;
  checkCudaErrors (cudaEventSynchronize ev_stop) ;;
  checkCudaErrors cudaEventElapsedTime ;;
  printf (MsgPerformance (u32 (dim_x threads * dim_y threads))) ;;
  checkCudaErrors (cudaMemcpyDeviceToHost h_C d_C mem_size_C) ;;
  printf MsgChecking ;;
  correct ← check_loop (Z.to_nat (to_int (dim_x dimsC * dim_y dimsC))) 0 dimsA true;
  printf (MsgResult correct) ;;
  free h_A ;;
  free h_B ;;
  free h_C ;;
  checkCudaErrors (cudaFree d_A) ;;
  checkCudaErrors (cudaFree d_B) ;;
  checkCudaErrors (cudaFree d_C) ;;
  printf MsgNote ;;
  if correct : bool then mret EXIT_SUCCESS else mret EXIT_FAILURE.

(** The command line as the helper functions of [main] see it. *)
Record cmdline := Cmdline {
  flag_help : bool;
  flag_wA : option Z;
  flag_hA : option Z;
  flag_wB : option Z;
  flag_hB : option Z
}.

Definition block_size_main : Z := 32.

(** Lines 256-277: the dimensions after the command line was read. *)
Definition configured_dimsA (cl : cmdline) : dim3 :=
  Dim3 (u32 (default (5 * 2 * block_size_main) (flag_wA cl)))
       (u32 (default (5 * 2 * block_size_main) (flag_hA cl))) 1.
Definition configured_dimsB (cl : cmdline) : dim3 :=
  Dim3 (u32 (default (5 * 2 * block_size_main) (flag_wB cl)))
       (u32 (default (5 * 2 * block_size_main) (flag_hB cl))) 1.

(** [int main(int argc, char **argv)]: every path ends in [exit]. *)
Definition main (cl : cmdline) : prog Empty_set :=
  printf MsgStarting ;;
  (if flag_help cl then printf MsgUsage ;; exit EXIT_SUCCESS
   else mret tt : prog unit) ;;
  findCudaDevice ;;
  let block_size := block_size_main in
  let dimsA := configured_dimsA cl in
  let dimsB := configured_dimsB cl in
  (if dim_x dimsA =? dim_y dimsB then mret tt
   else printf (MsgOuterDimensions (dim_x dimsA) (dim_y dimsB)) ;;
        exit EXIT_FAILURE) ;;
  printf (MsgMatrices dimsA dimsB) ;;
  matrix_result ← MatrixMultiply block_size dimsA dimsB;
  exit matrix_result.

End Host.

(** ** Spec-side vocabulary *)

(** The dot product of row [r] of [A] and column [c] of [B], both row-major
    with widths [wA] and [wB], accumulated for k = 0, 1, ..., wA-1. *)
Definition spec_dot_product {val : Type} (vzero : val) (vadd vmul : val → val → val)
    (A B : list val) (wA wB r c : Z) : option val :=
  foldl (λ oacc k, acc ← oacc;
                   a ← global_load A (r * wA + k);
                   b ← global_load B (k * wB + c);
                   Some (vadd acc (vmul a b)))
        (Some vzero) (zrange wA).

(** The elements of a buffer paired with their indices, counted from [i]. *)
Definition indexed_from (i : Z) (l : list float) : list (Z * float) :=
  imap (λ k v, (i + Z.of_nat k, v)) l.

(** The elements of [C] the tolerance test rejects, with their indices. *)
Definition failing_elements (dimsA : dim3) (C : list float) : list (Z * float) :=
  filter (λ iv, out_of_tolerance iv.2 dimsA = true) (indexed_from 0 C).

Definition error_report (dimsA : dim3) (C : list float) : list event :=
  (λ iv, Print (MsgError iv.1 iv.2 (reference dimsA))) <$> failing_elements dimsA C.

(** The same for a part of the buffer that starts at index [i]. *)
Definition report_from (dimsA : dim3) (i : Z) (l : list float) : list event :=
  (λ iv, Print (MsgError iv.1 iv.2 (reference dimsA))) <$>
    filter (λ iv, out_of_tolerance iv.2 dimsA = true) (indexed_from i l).

(** Buffers that were obtained and not yet released after a run of events. *)
Definition outstanding_step (live : list (hbuf + dbuf)) (e : event) : list (hbuf + dbuf) :=
  match e with
  | Malloc p _ true => inl p :: live
  | Free p => filter (λ q, q ≠ inl p) live
  | Cuda (cudaMalloc p _) true => inr p :: live
  | Cuda (cudaFree p) true => filter (λ q, q ≠ inr p) live
  | _ => live
  end.
Definition outstanding (evs : list event) : list (hbuf + dbuf) :=
  foldl outstanding_step [] evs.

(** The buffers a run of events obtained. *)
Definition acquired (evs : list event) : list (hbuf + dbuf) :=
  omap (λ e, match e with
             | Malloc p _ true => Some (inl p)
             | Cuda (cudaMalloc p _) true => Some (inr p)
             | _ => None
             end) evs.

(** Events that neither obtain nor release a buffer. *)
Definition neutral (e : event) : Prop :=
  match e with
  | Malloc _ _ _ | Free _ | Cuda _ _ => False
  | _ => True
  end.

Definition is_launch (e : event) : bool :=
  match e with Launch _ _ _ _ _ => true | _ => false end.

(** Obtaining memory and giving work to the device. *)
Definition is_allocation_or_device_work (e : event) : bool :=
  match e with
  | Malloc _ _ _ | Cuda _ _ | Launch _ _ _ _ _ | DeviceSynchronize
  | Received _ _ => true
  | _ => false
  end.


Section RunShape.
Variable block_size : Z.
Variables dimsA dimsB : dim3.

Definition mem_size_A : Z := u32 (sizeof_float * u32 (dim_x dimsA * dim_y dimsA)).
Definition mem_size_B : Z := u32 (sizeof_float * u32 (dim_x dimsB * dim_y dimsB)).
Definition mem_size_C : Z := u32 (u32 (dim_x dimsB * dim_y dimsA) * sizeof_float).
Definition threads : dim3 := Dim3 (u32 block_size) (u32 block_size) 1.
Definition grid : dim3 :=
  Dim3 (dim_x dimsB / u32 block_size) (dim_y dimsA / u32 block_size) 1.

(** The launch the driver issues, once to warm up and [nIter] times again. *)
Definition launch_event (block_size' : Z) (grid' threads' : dim3) : event :=
  Launch (if block_size' =? 16 then 16 else 32) grid' threads'
         (to_int (dim_x dimsA)) (to_int (dim_x dimsB)).
Definition the_launch : event := launch_event block_size grid threads.

(** Everything before the validation, on the path where nothing fails. *)
Definition setup_events : list event :=
  [ Malloc h_A mem_size_A true; Malloc h_B mem_size_B true;
    Malloc h_C mem_size_C true;
    Cuda (cudaMalloc d_A mem_size_A) true;
    Cuda (cudaMalloc d_B mem_size_B) true;
    Cuda (cudaMalloc d_C mem_size_C) true;
    Cuda (cudaMemcpyHostToDevice d_A h_A mem_size_A) true;
    Cuda (cudaMemcpyHostToDevice d_B h_B mem_size_B) true;
    Print MsgComputing; the_launch; Print MsgDone; DeviceSynchronize;
    Cuda (cudaEventCreate ev_start) true; Cuda (cudaEventCreate ev_stop) true;
    Cuda (cudaEventRecord ev_start) true ]
  ++ replicate nIter the_launch ++
  [ Cuda (cudaEventRecord ev_stop) true;
    Cuda (cudaEventSynchronize ev_stop) true;
    Cuda cudaEventElapsedTime true;
    Print (MsgPerformance (u32 (dim_x threads * dim_y threads)));
    Cuda (cudaMemcpyDeviceToHost h_C d_C mem_size_C) true ].

Definition cleanup_events : list event :=
  [ Free h_A; Free h_B; Free h_C;
    Cuda (cudaFree d_A) true; Cuda (cudaFree d_B) true; Cuda (cudaFree d_C) true;
    Print MsgNote ].

(** The number of elements the validation loop visits. *)
Definition checked : nat := Z.to_nat (to_int (dim_x dimsB * dim_y dimsA)).
End RunShape.

(** An element of the part of [C] the validation loop visits is out of
    tolerance. *)
Definition some_element_out_of_tolerance (dimsA dimsB : dim3) (C : list float) : Prop :=
  ∃ (i : nat) (v : float),
    (i < checked dimsA dimsB)%nat ∧ C !! i = Some v ∧ out_of_tolerance v dimsA = true.

(** The world in which [main] calls [MatrixMultiply]. *)
Definition entering_MatrixMultiply (cl : cmdline) (w : world) : world :=
  log (Print (MsgMatrices (configured_dimsA cl) (configured_dimsB cl)))
    (log (FindDevice true) (log (Print MsgStarting) w)).

(** A launch of the instantiation [BLOCK_SIZE] with blocks of shape [threads']. *)
Definition launches_as (BLOCK_SIZE : Z) (threads' : dim3) (e : event) : Prop :=
  match e with
  | Launch BS _ t _ _ => BS = BLOCK_SIZE ∧ t = threads'
  | _ => True
  end.

Definition is_error_message (e : event) : bool :=
  match e with Print (MsgError _ _ _) => true | _ => false end.

(** Whatever its outcome, the run of [c] adds only events that satisfy [P]. *)
Definition emits {A : Type} (P : event → Prop) (c : prog A) : Prop :=
  ∀ w, ∃ evs, trace (c w).2 = trace w ++ evs ∧ Forall P evs.

(** ** Concrete environments and inputs *)

(** Every call succeeds, fresh memory holds zeros, threads run in grid order. *)
Definition calm : environment :=
  Environment true (λ _, true) (λ _, true) (λ _, F32.zero) (λ _ l, l).

(** As [calm], but [malloc] fails for the host buffer [p]. *)
Definition out_of_memory_for (p : hbuf) : environment :=
  Environment true (λ q, negb (hbuf_eqb q p)) (λ _, true) (λ _, F32.zero) (λ _ l, l).

Definition square (n : Z) : dim3 := Dim3 n n 1.

(** [-wA=n -hA=n -wB=n -hB=n] *)
Definition square_cmdline (n : Z) : cmdline :=
  Cmdline false (Some n) (Some n) (Some n) (Some n).

(** As [calm], but fresh memory holds [f i] at offset [i]. *)
Definition with_junk (f : nat → float) : environment :=
  Environment true (λ _, true) (λ _, true) f (λ _ l, l).

(** Fresh memory that holds the reference value for width 16 at even
    offsets and zero at odd ones. *)
Definition patchy : environment :=
  with_junk (λ i, if Nat.even i then F32.mul (F32.of_Z 16) valB else F32.zero).

(** A buffer of [n] zeros with a one at offset [i]. *)
Definition unit_at (n i : nat) : list float :=
  <[i := F32.one]> (replicate n F32.zero).

Definition minus_one : float := F32.of_Z (-1).

(** Element [i] of the buffer a launch leaves, when the launch is defined. *)
Definition element (C : option (list float)) (i : nat) : option float :=
  C ≫= (λ l, l !! i).

(** ** What one thread accumulates *)

(** The integers [k], [k+1], ..., [k+n-1]. *)
Definition zrange_from (k : Z) (n : nat) : list Z :=
  (λ j, k + Z.of_nat j) <$> seq 0 n.

Section Accumulation.
Context {val : Type}.
Variable vzero : val.
Variables vadd vmul : val → val → val.
Variable BLOCK_SIZE : Z.
Variable blockDim : dim3.
Variables A B : list val.
Variable wA : Z.

(** The product thread [t] adds in tiling step [m] at inner index [k],
    written with the global indices the two factors were loaded from. *)
Definition product_term (t : thread) (mk : Z * Z) : option val :=
  a ← global_load A ((blockIdx_y t * dim_y blockDim + mk.2) * wA
                     + mk.1 * BLOCK_SIZE + threadIdx_x t);
  b ← global_load B ((mk.1 * BLOCK_SIZE + threadIdx_y t) * wA
                     + (blockIdx_x t * dim_x blockDim + mk.2));
  Some (vmul a b).

Definition accumulate (t : thread) (oacc : option val) (mk : Z * Z) : option val :=
  acc ← oacc; p ← product_term t mk; Some (vadd acc p).

(** Tile index ascending, inner index ascending within each tile. *)
Definition accumulation_order : list (Z * Z) :=
  m ← zrange (wA ÷ BLOCK_SIZE); k ← zrange BLOCK_SIZE; [(m, k)].

End Accumulation.

(** The sum of [n] copies of [p], added one after the other to zero. *)
Definition repeated_sum {val : Type} (vzero : val) (vadd : val → val → val)
    (p : val) (n : nat) : val :=
  Nat.iter n (λ s, vadd s p) vzero.

(** Every thread of [sched] stores the same value [v] at its own index. *)
Definition store_all {val : Type} (index : thread → nat) (v : val)
    (C : list val) (sched : list thread) : list val :=
  foldl (λ C' t, <[index t := v]> C') C sched.

(** ** How a run may end *)

(** Whenever the run of [c] leaves through [exit], its status and the world
    it leaves satisfy [P]. *)
Definition exits_with {A : Type} (P : Z → world → Prop) (c : prog A) : Prop :=
  ∀ w code w', c w = (Exit code, w') → P code w'.

(** The two messages [MatrixMultiply] has for a failure. *)
Definition is_failure_message (m : message) : Prop :=
  match m with
  | MsgAllocCFailed | MsgCudaError _ => True
  | _ => False
  end.

(** The process leaves with [EXIT_FAILURE], and the last thing it did was
    to print a failure message. *)
Definition reported_failure (code : Z) (w : world) : Prop :=
  code = EXIT_FAILURE ∧
  ∃ m, last (trace w) = Some (Print m) ∧ is_failure_message m.

(** No run of [c] comes back to its caller. *)
Definition never_returns {A : Type} (c : prog A) : Prop :=
  ∀ w a w', c w ≠ (Done a, w').

(** A [float] that is neither zero nor a finite number. *)
Definition not_a_finite_number (f : float) : Prop :=
  match f with
  | S754_nan | S754_infinity _ => True
  | _ => False
  end.

(** A world whose host buffer [p] holds [data]. *)
Definition holding (p : hbuf) (data : list float) : world :=
  set_host p (Some data) initial_world.
(** ** Reasoning about runs *)

Lemma bind_Done {A B} (c : prog A) (k : A → prog B) w b w' :
  (c ≫= k) w = (Done b, w') →
  ∃ a w1, c w = (Done a, w1) ∧ k a w1 = (Done b, w').
Proof.
  unfold mbind, prog_bind.
  destruct (c w) as [[a|code|] w1]; intros H; try discriminate; eauto.
Qed.

Lemma bind_run_Done {A B} (c : prog A) (k : A → prog B) w a w1 :
  c w = (Done a, w1) → (c ≫= k) w = k a w1.
Proof. unfold mbind, prog_bind. by intros ->. Qed.

Lemma bind_run_Exit {A B} (c : prog A) (k : A → prog B) w code w1 :
  c w = (Exit code, w1) → (c ≫= k) w = (Exit code, w1).
Proof. unfold mbind, prog_bind. by intros ->. Qed.

Lemma bind_run_Fault {A B} (c : prog A) (k : A → prog B) w w1 :
  c w = (Fault, w1) → (c ≫= k) w = (Fault, w1).
Proof. unfold mbind, prog_bind. by intros ->. Qed.

Lemma mret_Done {A} (a b : A) (w w' : world) :
  (mret a : prog A) w = (Done b, w') → b = a ∧ w' = w.
Proof. by intros [= <- <-]. Qed.

Section HostFacts.
Variable env : environment.

Lemma emit_Done e w u w' : emit e w = (Done u, w') → w' = log e w.
Proof. unfold emit. congruence. Qed.

Lemma malloc_Done p bytes w u w' :
  malloc env p bytes w = (Done u, w') →
  w' = set_host p (if malloc_ok env p then Some (fresh env bytes) else None)
         (log (Malloc p bytes (malloc_ok env p)) w).
Proof. unfold malloc. destruct (malloc_ok env p); congruence. Qed.

Lemma is_NULL_Done p w b w' :
  is_NULL p w = (Done b, w') →
  w' = w ∧ b = match host w p with Some _ => false | None => true end.
Proof. unfold is_NULL. by intros [= <- <-]. Qed.

Lemma free_Done p w u w' :
  free p w = (Done u, w') → w' = set_host p None (log (Free p) w).
Proof. unfold free. congruence. Qed.

Lemma ConstantInit_Done p size val w u w' :
  ConstantInit p size val w = (Done u, w') →
  match host w p with
  | Some _ => ∃ data', w' = set_host p (Some data') w
  | None => w' = w ∧ size <= 0
  end.
Proof.
  unfold ConstantInit. destruct (host w p) as [data|].
  - destruct (ConstantInit_loop _ _ _ _) as [data'|]; [|discriminate].
    intros [= _ <-]. by eexists.
  - destruct (0 <? size) eqn:Hs; [discriminate|].
    intros [= _ <-]. apply Z.ltb_ge in Hs. done.
Qed.

Lemma checkCudaErrors_Done c w u w' :
  checkCudaErrors env c w = (Done u, w') →
  cuda_ok env c = true ∧ cuda_effect env c (log (Cuda c true) w) = Some w'.
Proof.
  unfold checkCudaErrors. destruct (cuda_ok env c).
  - destruct (cuda_effect _ _ _); [|discriminate]. by intros [= _ <-].
  - discriminate.
Qed.

Lemma launch_kernel_Done BS grid threads wA wB w u w' :
  launch_kernel env BS grid threads wA wB w = (Done u, w') →
  ∃ dev, w' = World (trace w ++ [Launch BS grid threads wA wB]) (host w) dev
                    (S (launched w)).
Proof.
  unfold launch_kernel.
  destruct (device w d_C), (device w d_A), (device w d_B); try discriminate.
  destruct (MatrixMulCUDA_float _ _ _ _ _ _ _ _); [|discriminate].
  intros [= _ <-]. eexists. reflexivity.
Qed.

Lemma launch_for_Done bs grid threads dimsA dimsB w u w' :
  launch_for env bs grid threads dimsA dimsB w = (Done u, w') →
  ∃ dev, w' = World (trace w ++ [launch_event dimsA dimsB bs grid threads])
                    (host w) dev (S (launched w)).
Proof.
  unfold launch_for, launch_event.
  destruct (bs =? 16); apply launch_kernel_Done.
Qed.

Lemma timed_loop_Done n bs grid threads dimsA dimsB w u w' :
  timed_loop env n bs grid threads dimsA dimsB w = (Done u, w') →
  ∃ dev, w' = World (trace w ++ replicate n (launch_event dimsA dimsB bs grid threads))
                    (host w) dev (n + launched w)%nat.
Proof.
  revert w. induction n as [|n IH]; intros w; simpl.
  - intros [= _ <-]. exists (device w). destruct w; simpl. by rewrite app_nil_r.
  - intros H. apply bind_Done in H as (? & w1 & H1 & H).
    apply launch_for_Done in H1 as [dev1 ->].
    apply IH in H as [dev ->]. exists dev. simpl.
    rewrite <- app_assoc. simpl. f_equal. lia.
Qed.

Lemma indexed_from_cons i v l :
  indexed_from i (v :: l) = (i, v) :: indexed_from (i + 1) l.
Proof.
  unfold indexed_from. rewrite imap_cons. f_equal; [f_equal; lia|].
  apply imap_ext. intros k x _. simpl. f_equal. lia.
Qed.

Lemma report_from_cons dimsA i v l :
  report_from dimsA i (v :: l) =
    (if out_of_tolerance v dimsA
     then [Print (MsgError i v (reference dimsA))] else [])
    ++ report_from dimsA (i + 1) l.
Proof.
  unfold report_from. rewrite indexed_from_cons, filter_cons. simpl.
  destruct (out_of_tolerance v dimsA) eqn:E.
  - by rewrite decide_True.
  - by rewrite decide_False.
Qed.

Lemma check_loop_Done n i dimsA correct w b w' hC :
  host w h_C = Some hC → 0 <= i →
  check_loop n i dimsA correct w = (Done b, w') →
  length (take n (drop (Z.to_nat i) hC)) = n ∧
  w' = World (trace w ++ report_from dimsA i (take n (drop (Z.to_nat i) hC)))
             (host w) (device w) (launched w) ∧
  b = correct && forallb (λ v, negb (out_of_tolerance v dimsA))
                         (take n (drop (Z.to_nat i) hC)).
Proof.
  intros HC. revert i correct w HC.
  induction n as [|n IH]; intros i correct w HC Hi; simpl.
  - intros [= <- <-]. rewrite take_0. simpl.
    rewrite app_nil_r, andb_true_r. by destruct w.
  - rewrite HC. simpl. unfold global_load.
    destruct (i <? 0) eqn:Hneg; [apply Z.ltb_lt in Hneg; lia|].
    destruct (hC !! Z.to_nat i) as [c|] eqn:Hc; [|discriminate].
    rewrite (drop_S _ _ _ Hc). rewrite firstn_cons.
    rewrite report_from_cons. simpl.
    assert (Hnext : Z.to_nat (i + 1) = S (Z.to_nat i)) by lia.
    destruct (out_of_tolerance c dimsA) eqn:Hoot; simpl.
    + intros H. apply bind_Done in H as (? & w1 & H1 & H).
      apply emit_Done in H1 as ->.
      apply IH in H as (Hlen & -> & ->); [|done|lia].
      rewrite Hnext in *. simpl. rewrite Hlen, <- app_assoc.
      by rewrite andb_false_r.
    + intros H. apply IH in H as (Hlen & -> & ->); [|done|lia].
      rewrite Hnext in *. by rewrite Hlen.
Qed.

End HostFacts.

Tactic Notation "wsimpl" :=
  cbn [host device trace launched set_host set_device log count_launch
       hbuf_eqb dbuf_eqb].
Tactic Notation "wsimpl" hyp(H) :=
  cbn [host device trace launched set_host set_device log count_launch
       hbuf_eqb dbuf_eqb] in H.

Ltac cuda_effect_inv H :=
  cbn [cuda_effect] in H;
  repeat (let E := fresh "E" in
          apply bind_Some in H as (? & E & H); wsimpl E;
          try discriminate E;
          try (apply (inj Some) in E; subst));
  apply (inj Some) in H; subst.

Ltac step H :=
  let Hs := fresh "Hs" in
  apply bind_Done in H as (? & ? & Hs & H);
  lazymatch type of Hs with
  | emit _ _ = _ => apply emit_Done in Hs as ->
  | printf _ _ = _ => apply emit_Done in Hs as ->
  | malloc _ _ _ _ = _ =>
      apply malloc_Done in Hs;
      repeat match goal with E : malloc_ok _ _ = _ |- _ => rewrite E in Hs end;
      subst
  | free _ _ = _ => apply free_Done in Hs as ->
  | is_NULL _ _ = _ => apply is_NULL_Done in Hs as [-> ->]
  | launch_for _ _ _ _ _ _ _ = _ => apply launch_for_Done in Hs as [? ->]
  | timed_loop _ _ _ _ _ _ _ _ = _ => apply timed_loop_Done in Hs as [? ->]
  | ConstantInit _ _ _ _ = _ =>
      apply ConstantInit_Done in Hs; wsimpl Hs;
      first [ destruct Hs as [? ->] | destruct Hs as [-> ?] ]
  | checkCudaErrors _ _ _ = _ =>
      apply checkCudaErrors_Done in Hs as [_ Hs]; cuda_effect_inv Hs
  | (if ?b then _ else _) _ = _ =>
      destruct b eqn:?;
      first [ discriminate Hs
            | apply bind_Done in Hs as (? & ? & _ & Hs); discriminate Hs
            | apply mret_Done in Hs as [-> ->] ]
  | mret _ _ = _ => apply mret_Done in Hs as [-> ->]
  | (_ ≫= λ _, exit _) _ = _ =>
      apply bind_Done in Hs as (? & ? & _ & Hs); discriminate Hs
  end;
  wsimpl H.


Lemma copy_floats_length n (dst src data : list float) :
  copy_floats n dst src = Some data → length data = length dst.
Proof.
  unfold copy_floats. destruct (decide _) as [[Hs Hd]|]; [|done].
  intros [= <-]. rewrite length_app, length_take, length_drop. lia.
Qed.

Section NormalPath.
Variable env : environment.
Variable block_size : Z.
Variables dimsA dimsB : dim3.

(** What a call that returns has done; [hC] is what the copy back from the
    device left in [h_C], as many elements as the byte count of [C] holds. *)
Lemma MatrixMultiply_Done_received w c w' :
  MatrixMultiply env block_size dimsA dimsB w = (Done c, w') →
  ∃ hC,
    let correct := forallb (λ v, negb (out_of_tolerance v dimsA))
                           (take (checked dimsA dimsB) hC) in
    (checked dimsA dimsB ≤ length hC)%nat ∧
    trace w' = trace w ++ setup_events block_size dimsA dimsB
                 ++ [Received h_C hC; Print MsgChecking]
                 ++ error_report dimsA (take (checked dimsA dimsB) hC)
                 ++ [Print (MsgResult correct)] ++ cleanup_events ∧
    c = (if correct then EXIT_SUCCESS else EXIT_FAILURE) ∧
    length hC = Z.to_nat (mem_size_C dimsA dimsB / sizeof_float).
Proof.
  unfold MatrixMultiply. cbv zeta. cbn [dim_x dim_y]. intros H.
  fold (mem_size_A dimsA) (mem_size_B dimsB) (mem_size_C dimsA dimsB)
    (threads block_size) (grid block_size dimsA dimsB) in H.
  destruct (malloc_ok env h_A) eqn:Ea, (malloc_ok env h_B) eqn:Eb,
           (malloc_ok env h_C) eqn:Ec.
  all: repeat (step H).
  apply bind_Done in H as (correct & ? & Hs & H).
  eapply check_loop_Done in Hs; [|reflexivity|lia].
  change (Z.to_nat 0) with 0%nat in Hs. rewrite drop_0 in Hs.
  destruct Hs as (Hlen & -> & ->). cbn [andb] in H.
  repeat (step H).
  match goal with E : copy_floats _ (fresh env (mem_size_C _ _)) _ = Some ?l |- _ =>
    exists l; apply copy_floats_length in E as Hsize
  end.
  unfold fresh in Hsize. rewrite length_fmap, length_seq in Hsize.
  unfold checked. rewrite length_take in Hlen. split; [lia|].
  destruct (forallb _ _); apply mret_Done in H as [-> ->]; wsimpl;
    (split; [|done]); by rewrite <- !app_assoc.
Qed.

Lemma MatrixMultiply_Done w c w' :
  MatrixMultiply env block_size dimsA dimsB w = (Done c, w') →
  ∃ hC,
    let correct := forallb (λ v, negb (out_of_tolerance v dimsA))
                           (take (checked dimsA dimsB) hC) in
    (checked dimsA dimsB ≤ length hC)%nat ∧
    trace w' = trace w ++ setup_events block_size dimsA dimsB
                 ++ [Received h_C hC; Print MsgChecking]
                 ++ error_report dimsA (take (checked dimsA dimsB) hC)
                 ++ [Print (MsgResult correct)] ++ cleanup_events ∧
    c = (if correct then EXIT_SUCCESS else EXIT_FAILURE).
Proof.
  intros H. apply MatrixMultiply_Done_received in H as (hC & Hlen & Ht & Hc & _).
  by exists hC.
Qed.
End NormalPath.

(** ** What a run may emit, whatever its outcome *)


Lemma emits_nothing {A} (P : event → Prop) (c : prog A) :
  (∀ w, trace (c w).2 = trace w) → emits P c.
Proof. intros H w. exists []. by rewrite app_nil_r. Qed.

Lemma emits_ret {A} P (a : A) : emits P (mret a : prog A).
Proof. by apply emits_nothing. Qed.

Lemma emits_exit {A} P code : emits P (exit code : prog A).
Proof. by apply emits_nothing. Qed.

Lemma emits_fault {A} P : emits P (fault : prog A).
Proof. by apply emits_nothing. Qed.

Lemma emits_emit (P : event → Prop) e : P e → emits P (emit e).
Proof. intros He w. exists [e]. split; [done|]. by constructor. Qed.

Lemma emits_bind {A B} P (c : prog A) (k : A → prog B) :
  emits P c → (∀ a, emits P (k a)) → emits P (c ≫= k).
Proof.
  intros Hc Hk w. destruct (Hc w) as (evs & Ht & Hevs).
  unfold mbind, prog_bind. destruct (c w) as [[a|code|] w1]; simpl in *.
  - destruct (Hk a w1) as (evs' & Ht' & Hevs').
    exists (evs ++ evs'). rewrite Ht', Ht, app_assoc. split; [done|].
    by apply Forall_app.
  - by exists evs.
  - by exists evs.
Qed.

Lemma emits_if {A} P (b : bool) (c1 c2 : prog A) :
  emits P c1 → emits P c2 → emits P (if b then c1 else c2).
Proof. by destruct b. Qed.

Section Emits.
Variable env : environment.
Variable P : event → Prop.
Hypothesis P_other : ∀ e, is_launch e = false → P e.

Lemma emits_printf m : emits P (printf m).
Proof. by apply emits_emit, P_other. Qed.

Lemma emits_malloc p bytes : emits P (malloc env p bytes).
Proof.
  intros w. unfold malloc. destruct (malloc_ok env p); simpl;
    eexists [_]; (split; [done|]); by constructor; [apply P_other|].
Qed.

Lemma emits_free p : emits P (free p).
Proof. intros w. eexists [_]. split; [done|]. by constructor; [apply P_other|]. Qed.

Lemma emits_is_NULL p : emits P (is_NULL p).
Proof. by apply emits_nothing. Qed.

Lemma emits_ConstantInit p size val : emits P (ConstantInit p size val).
Proof.
  apply emits_nothing. intros w. unfold ConstantInit.
  destruct (host w p); [destruct (ConstantInit_loop _ _ _ _)|destruct (0 <? size)]; done.
Qed.

Lemma cuda_effect_trace c w w' :
  cuda_effect env c w = Some w' →
  trace w' = trace w ∨ ∃ p data, trace w' = trace w ++ [Received p data].
Proof.
  destruct c; simpl; intros H;
    repeat (apply bind_Some in H as (? & _ & H));
    apply (inj Some) in H; subst; simpl; eauto.
Qed.

Lemma emits_checkCudaErrors c : emits P (checkCudaErrors env c).
Proof.
  intros w. unfold checkCudaErrors. destruct (cuda_ok env c).
  - destruct (cuda_effect _ _ _) as [w'|] eqn:E; simpl.
    + apply cuda_effect_trace in E as [->|(p & data & ->)]; simpl.
      * eexists [_]. split; [done|]. by constructor; [apply P_other|].
      * rewrite <- app_assoc. eexists [_; _]. split; [done|].
        by repeat constructor; apply P_other.
    + eexists [_]. split; [done|]. by constructor; [apply P_other|].
  - simpl. rewrite <- app_assoc. eexists [_; _]. split; [done|].
    by repeat constructor; apply P_other.
Qed.

Lemma emits_findCudaDevice : emits P (findCudaDevice env).
Proof.
  unfold findCudaDevice. destruct (device_found env).
  - by apply emits_emit, P_other.
  - apply emits_bind; [by apply emits_emit, P_other|]. intros _. apply emits_exit.
Qed.

Lemma emits_launch_kernel BS grid threads wA wB :
  P (Launch BS grid threads wA wB) →
  emits P (launch_kernel env BS grid threads wA wB).
Proof.
  intros HL w. exists [Launch BS grid threads wA wB]. split; [|by constructor].
  unfold launch_kernel.
  destruct (device w d_C), (device w d_A), (device w d_B); try done.
  by destruct (MatrixMulCUDA_float _ _ _ _ _ _ _ _).
Qed.

Lemma emits_launch_for bs grid threads dimsA dimsB :
  P (launch_event dimsA dimsB bs grid threads) →
  emits P (launch_for env bs grid threads dimsA dimsB).
Proof.
  unfold launch_for, launch_event. destruct (bs =? 16); apply emits_launch_kernel.
Qed.

Lemma emits_timed_loop n bs grid threads dimsA dimsB :
  P (launch_event dimsA dimsB bs grid threads) →
  emits P (timed_loop env n bs grid threads dimsA dimsB).
Proof.
  intros HL. induction n as [|n IH]; simpl.
  - apply emits_ret.
  - apply emits_bind; [by apply emits_launch_for|]. by intros _.
Qed.

Lemma emits_check_loop n i dimsA correct : emits P (check_loop n i dimsA correct).
Proof.
  revert i correct. induction n as [|n IH]; intros i correct; simpl.
  - apply emits_ret.
  - intros w. destruct (host w h_C ≫= _) as [c|]; [|by exists []; rewrite app_nil_r].
    destruct (out_of_tolerance c dimsA); [|apply IH].
    apply (emits_bind P (printf _)); [apply emits_printf|]. intros _. apply IH.
Qed.

Lemma emits_MatrixMultiply bs dimsA dimsB :
  P (the_launch bs dimsA dimsB) →
  emits P (MatrixMultiply env bs dimsA dimsB).
Proof.
  intros HL. unfold MatrixMultiply. cbv zeta. cbn [dim_x dim_y].
  repeat first
    [ apply emits_bind; [|intros ?]
    | apply emits_printf | apply emits_malloc | apply emits_free
    | apply emits_is_NULL | apply emits_ConstantInit
    | apply emits_checkCudaErrors | apply emits_check_loop
    | apply emits_launch_for; exact HL
    | apply emits_timed_loop; exact HL
    | apply emits_emit; apply P_other; reflexivity
    | apply emits_if | apply emits_ret | apply emits_exit | apply emits_fault ].
Qed.

Lemma emits_main cl :
  P (the_launch block_size_main (configured_dimsA cl) (configured_dimsB cl)) →
  emits P (main env cl).
Proof.
  intros HL. unfold main. cbv zeta.
  repeat first
    [ apply emits_MatrixMultiply; exact HL
    | apply emits_bind; [|intros ?]
    | apply emits_printf | apply emits_findCudaDevice
    | apply emits_if | apply emits_ret | apply emits_exit ].
Qed.

End Emits.

(** ** The order of accumulation *)

Lemma zrange_from_S k n : zrange_from k (S n) = k :: zrange_from (k + 1) n.
Proof.
  unfold zrange_from. simpl. f_equal; [lia|].
  rewrite <- fmap_S_seq, <- list_fmap_compose.
  apply list_fmap_ext. intros _ j _. simpl. lia.
Qed.

Lemma zrange_zrange_from n : zrange n = zrange_from 0 (Z.to_nat n).
Proof. unfold zrange, zrange_from. by apply list_fmap_ext. Qed.

Lemma elem_of_zrange_from k n j :
  j ∈ zrange_from k n ↔ k <= j < k + Z.of_nat n.
Proof.
  unfold zrange_from. rewrite list_elem_of_fmap. split.
  - intros (i & -> & Hi). apply elem_of_seq in Hi. lia.
  - intros Hj. exists (Z.to_nat (j - k)). split; [lia|]. apply elem_of_seq. lia.
Qed.

Lemma elem_of_zrange n j : j ∈ zrange n ↔ 0 <= j < n.
Proof. rewrite zrange_zrange_from, elem_of_zrange_from. lia. Qed.

(** Comparisons that [lia] decides are replaced by [true]. *)
Ltac bounds_hold :=
  repeat match goal with
         | |- context [?a <=? ?b] => rewrite (proj2 (Z.leb_le a b)) by lia
         | |- context [?a <? ?b] => rewrite (proj2 (Z.ltb_lt a b)) by lia
         end.

Section AccumulationFacts.
Context {val : Type}.
Variable vzero : val.
Variables vadd vmul : val → val → val.
Variable BLOCK_SIZE : Z.
Variable blockDim : dim3.
Variables A B : list val.
Variable wA : Z.

(** The blocks are at least as large as the tiles. *)
Hypothesis block_x : BLOCK_SIZE <= dim_x blockDim.
Hypothesis block_y : BLOCK_SIZE <= dim_y blockDim.

Variable t : thread.
Hypothesis tx_range : 0 <= threadIdx_x t < BLOCK_SIZE.
Hypothesis ty_range : 0 <= threadIdx_y t < BLOCK_SIZE.

Local Abbreviation step := (accumulate vadd vmul BLOCK_SIZE blockDim A B wA t).
Local Abbreviation term := (product_term vmul BLOCK_SIZE blockDim A B wA t).

Lemma accumulate_None l : foldl step None l = None.
Proof. by induction l. Qed.

Lemma accumulate_fails acc l mk :
  mk ∈ l → term mk = None → foldl step (Some acc) l = None.
Proof.
  intros Hin Hmk. revert acc. induction l as [|x l IH]; intros acc.
  - by apply elem_of_nil in Hin.
  - cbn [foldl]. apply elem_of_cons in Hin as [<-|Hin].
    + unfold accumulate at 2. cbn [mbind option_bind]. rewrite Hmk.
      apply accumulate_None.
    + destruct (step (Some acc) x); [by apply IH|apply accumulate_None].
Qed.

Lemma Ads_slot m k :
  0 <= k < BLOCK_SIZE →
  Ads BLOCK_SIZE blockDim A wA t m (threadIdx_x t) k =
    global_load A ((blockIdx_y t * dim_y blockDim + k) * wA
                   + m * BLOCK_SIZE + threadIdx_x t).
Proof.
  intros Hk. unfold Ads, in_tile, in_block.
  bounds_hold.
  reflexivity.
Qed.

Lemma Bds_slot m k :
  0 <= k < BLOCK_SIZE →
  Bds BLOCK_SIZE blockDim B wA t m k (threadIdx_y t) =
    global_load B ((m * BLOCK_SIZE + threadIdx_y t) * wA
                   + (blockIdx_x t * dim_x blockDim + k)).
Proof.
  intros Hk. unfold Bds, in_tile, in_block.
  bounds_hold.
  reflexivity.
Qed.

Lemma inner_loop_in_order n m k C_local :
  0 <= k → k + Z.of_nat n <= BLOCK_SIZE →
  inner_loop vadd vmul BLOCK_SIZE blockDim A B wA n t m k C_local =
    foldl step (Some C_local) ((λ j, (m, j)) <$> zrange_from k n).
Proof.
  revert k C_local. induction n as [|n IH]; intros k C_local Hk Hn; [done|].
  rewrite zrange_from_S. cbn [inner_loop fmap list_fmap foldl].
  rewrite Ads_slot, Bds_slot by lia.
  unfold accumulate at 2, product_term. cbn [fst snd mbind option_bind].
  destruct (global_load A _) as [a|]; cbn; [|by rewrite accumulate_None].
  destruct (global_load B _) as [b|]; cbn; [|by rewrite accumulate_None].
  apply IH; lia.
Qed.

Lemma tile_step_in_order m C_local :
  tile_step vadd vmul BLOCK_SIZE blockDim A B wA t m C_local =
    foldl step (Some C_local) ((λ j, (m, j)) <$> zrange BLOCK_SIZE).
Proof.
  unfold tile_step, in_tile.
  bounds_hold.
  cbn [andb]. rewrite inner_loop_in_order, <- zrange_zrange_from by lia.
  destruct (global_load A (A_index _ _ _ _ _)) as [a|] eqn:Ea; cbn.
  - destruct (global_load B (B_index _ _ _ _ _)) as [b|] eqn:Eb; cbn; [done|].
    symmetry. apply (accumulate_fails _ _ (m, threadIdx_x t)).
    + apply list_elem_of_fmap_2, elem_of_zrange. lia.
    + unfold product_term. cbn [fst snd].
      unfold B_index, col in Eb. rewrite Eb. clear Ea.
      destruct (global_load A _); reflexivity.
  - symmetry. apply (accumulate_fails _ _ (m, threadIdx_y t)).
    + apply list_elem_of_fmap_2, elem_of_zrange. lia.
    + unfold product_term. cbn [fst snd].
      unfold A_index, row in Ea. by rewrite Ea.
Qed.

Lemma tile_loop_in_order n m C_local :
  tile_loop vadd vmul BLOCK_SIZE blockDim A B wA n t m C_local =
    foldl step (Some C_local)
      (m' ← zrange_from m n; k ← zrange BLOCK_SIZE; [(m', k)]).
Proof.
  revert m C_local. induction n as [|n IH]; intros m C_local; [done|].
  rewrite zrange_from_S. cbn [tile_loop]. rewrite bind_cons, foldl_app.
  rewrite tile_step_in_order.
  assert (Hrow : (zrange BLOCK_SIZE ≫= λ k, [(m, k)]) = (λ j, (m, j)) <$> zrange BLOCK_SIZE).
  { generalize (zrange BLOCK_SIZE). intros l.
    induction l as [|x l IHl]; [done|].
    by rewrite bind_cons, fmap_cons, IHl. }
  rewrite Hrow.
  destruct (foldl step (Some C_local) _) as [acc|]; cbn.
  - apply IH.
  - by rewrite accumulate_None.
Qed.

(** What thread [t] holds in [C_local] at the end: the products taken in
    the order of [accumulation_order], starting from zero. *)
Lemma thread_result_in_order :
  thread_result vzero vadd vmul BLOCK_SIZE blockDim A B wA t =
    foldl step (Some vzero) (accumulation_order BLOCK_SIZE wA).
Proof.
  unfold thread_result, accumulation_order.
  by rewrite tile_loop_in_order, <- zrange_zrange_from.
Qed.

End AccumulationFacts.

(** ** Launches over constant matrices *)

Lemma elem_of_grid_threads gridDim blockDim t :
  t ∈ grid_threads gridDim blockDim ↔
  0 <= blockIdx_x t < dim_x gridDim ∧ 0 <= blockIdx_y t < dim_y gridDim ∧
  0 <= threadIdx_x t < dim_x blockDim ∧ 0 <= threadIdx_y t < dim_y blockDim.
Proof.
  unfold grid_threads. rewrite list_elem_of_bind. split.
  - intros (by_ & H & Hby). apply list_elem_of_bind in H as (bx & H & Hbx).
    apply list_elem_of_bind in H as (ty & H & Hty).
    apply list_elem_of_bind in H as (tx & H & Htx).
    apply list_elem_of_singleton in H as ->.
    rewrite elem_of_zrange in Hby, Hbx, Hty, Htx. done.
  - intros (Hbx & Hby & Htx & Hty). destruct t as [bx by_ tx ty]. simpl in *.
    exists by_. split; [|by apply elem_of_zrange].
    apply list_elem_of_bind. exists bx. split; [|by apply elem_of_zrange].
    apply list_elem_of_bind. exists ty. split; [|by apply elem_of_zrange].
    apply list_elem_of_bind. exists tx. split; [|by apply elem_of_zrange].
    by apply list_elem_of_singleton.
Qed.

Lemma global_load_replicate {val : Type} (n : nat) (a : val) (i : Z) :
  0 <= i < Z.of_nat n → global_load (replicate n a) i = Some a.
Proof.
  intros Hi. unfold global_load. bounds_hold.
  destruct (i <? 0) eqn:E; [apply Z.ltb_lt in E; lia|].
  apply lookup_replicate_2. lia.
Qed.

Section StoreAll.
Context {val : Type}.
Variable index : thread → nat.
Variable v : val.

Lemma store_all_length sched C : length (store_all index v C sched) = length C.
Proof.
  revert C. induction sched as [|t sched IH]; intros C; [done|].
  unfold store_all in *. cbn [foldl]. by rewrite IH, length_insert.
Qed.

Lemma store_all_untouched sched C i :
  i ∉ index <$> sched → store_all index v C sched !! i = C !! i.
Proof.
  revert C. induction sched as [|t sched IH]; intros C Hi; [done|].
  rewrite fmap_cons, not_elem_of_cons in Hi. destruct Hi as [Hne Hi].
  unfold store_all in *. cbn [foldl]. rewrite IH by done.
  by rewrite list_lookup_insert_ne.
Qed.

Lemma store_all_covered sched C i :
  i ∈ index <$> sched → (i < length C)%nat →
  store_all index v C sched !! i = Some v.
Proof.
  revert C. induction sched as [|t sched IH]; intros C Hi Hlt.
  - by apply elem_of_nil in Hi.
  - destruct (decide (i ∈ index <$> sched)) as [Hin|Hnin].
    + unfold store_all in *. cbn [foldl]. apply IH; [done|]. by rewrite length_insert.
    + rewrite fmap_cons, elem_of_cons in Hi. destruct Hi as [->|Hi]; [|done].
      unfold store_all. cbn [foldl]. fold (store_all index v (<[index t:=v]> C) sched).
      rewrite store_all_untouched by done.
      by rewrite list_lookup_insert_eq.
Qed.

End StoreAll.

Lemma flat_index_bound r c w h :
  0 <= r < h → 0 <= c < w → 0 <= r * w + c < w * h.
Proof. nia. Qed.

Lemma tile_coordinate_bound q i n BS :
  0 <= q < n → 0 <= i < BS → 0 <= q * BS + i < n * BS.
Proof. nia. Qed.

Lemma length_bind_const {X Y} (f : X → list Y) (l : list X) (c : nat) :
  (∀ x, length (f x) = c) → length (l ≫= f) = (length l * c)%nat.
Proof.
  intros Hf. induction l as [|x l IH]; [done|].
  rewrite bind_cons, length_app, Hf, IH. simpl. lia.
Qed.

Lemma length_zrange n : length (zrange n) = Z.to_nat n.
Proof. unfold zrange. by rewrite length_fmap, length_seq. Qed.

Section ConstantLaunch.
Context {val : Type}.
Variable vzero : val.
Variables vadd vmul : val → val → val.

(** Tile edge, number of tiles along the width of A, number of rows of
    blocks.  A is [hA] x [wA]; B is [wA] x [wA]. *)
Variables BS tiles rows : Z.
Hypothesis BS_pos : 0 < BS.
Hypothesis tiles_nonneg : 0 <= tiles.
Hypothesis rows_nonneg : 0 <= rows.
Variables a b : val.

Local Abbreviation wA := (tiles * BS).
Local Abbreviation hA := (rows * BS).
Local Abbreviation A := (replicate (Z.to_nat (wA * hA)) a).
Local Abbreviation B := (replicate (Z.to_nat (wA * wA)) b).
Local Abbreviation blockDim := (Dim3 BS BS 1).
Local Abbreviation gridDim := (Dim3 tiles rows 1).
Local Abbreviation total := (repeated_sum vzero vadd (vmul a b) (Z.to_nat wA)).

Lemma product_term_constant t mk :
  t ∈ grid_threads gridDim blockDim →
  mk ∈ accumulation_order BS wA →
  product_term vmul BS blockDim A B wA t mk = Some (vmul a b).
Proof.
  intros Ht Hmk. apply elem_of_grid_threads in Ht as (Hbx & Hby & Htx & Hty).
  unfold accumulation_order in Hmk. rewrite Z.quot_mul in Hmk by lia.
  apply list_elem_of_bind in Hmk as (m & Hmk & Hm).
  apply list_elem_of_bind in Hmk as (k & Hmk & Hk).
  apply list_elem_of_singleton in Hmk as ->.
  apply elem_of_zrange in Hm, Hk. cbn [dim_x dim_y] in *.
  unfold product_term. cbn [fst snd dim_x dim_y].
  pose proof (tile_coordinate_bound _ _ _ _ Hby Hk).
  pose proof (tile_coordinate_bound _ _ _ _ Hm Htx).
  pose proof (tile_coordinate_bound _ _ _ _ Hm Hty).
  pose proof (tile_coordinate_bound _ _ _ _ Hbx Hk).
  rewrite !global_load_replicate; [done| |].
  - rewrite Z2Nat.id by nia. rewrite <- Z.add_assoc. by apply flat_index_bound.
  - rewrite Z2Nat.id by nia. by apply flat_index_bound.
Qed.

Lemma accumulate_constant t l acc :
  (∀ mk, mk ∈ l → product_term vmul BS blockDim A B wA t mk = Some (vmul a b)) →
  foldl (accumulate vadd vmul BS blockDim A B wA t) (Some acc) l =
    Some (Nat.iter (length l) (λ s, vadd s (vmul a b)) acc).
Proof.
  revert acc. induction l as [|mk l IH]; intros acc Hl; [done|].
  cbn [foldl length]. unfold accumulate at 2. cbn [mbind option_bind].
  rewrite (Hl mk) by (by left). cbn [mbind option_bind].
  rewrite IH by (intros; apply Hl; by right).
  by rewrite Nat.iter_succ_r.
Qed.

Lemma length_accumulation_order :
  length (accumulation_order BS wA) = Z.to_nat wA.
Proof.
  unfold accumulation_order. rewrite Z.quot_mul by lia.
  rewrite (length_bind_const _ _ (Z.to_nat BS)), length_zrange; [lia|].
  intros m. rewrite (length_bind_const _ _ 1%nat), length_zrange; [lia|done].
Qed.

Lemma thread_result_constant t :
  t ∈ grid_threads gridDim blockDim →
  thread_result vzero vadd vmul BS blockDim A B wA t = Some total.
Proof.
  intros Ht. pose proof Ht as Hin.
  apply elem_of_grid_threads in Hin as (_ & _ & Htx & Hty).
  rewrite thread_result_in_order by (cbn [dim_x dim_y] in *; lia).
  rewrite accumulate_constant by (intros; by apply product_term_constant).
  by rewrite length_accumulation_order.
Qed.

Lemma C_index_in_range t :
  t ∈ grid_threads gridDim blockDim →
  0 <= C_index blockDim wA t < wA * hA.
Proof.
  intros Ht. apply elem_of_grid_threads in Ht as (Hbx & Hby & Htx & Hty).
  cbn [dim_x dim_y] in *. unfold C_index, row, col. cbn [dim_x dim_y].
  pose proof (tile_coordinate_bound _ _ _ _ Hby Hty).
  pose proof (tile_coordinate_bound _ _ _ _ Hbx Htx).
  by apply flat_index_bound.
Qed.

(** With B square, every index a thread of the grid uses is inside the
    buffer it addresses. *)
Lemma indices_within_buffers t m :
  t ∈ grid_threads gridDim blockDim → 0 <= m < tiles →
  0 <= A_index BS blockDim wA t m < wA * hA ∧
  0 <= B_index BS blockDim wA t m < wA * wA ∧
  0 <= C_index blockDim wA t < wA * hA.
Proof.
  intros Ht Hm. split; [|split; [|by apply C_index_in_range]].
  - apply elem_of_grid_threads in Ht as (Hbx & Hby & Htx & Hty).
    cbn [dim_x dim_y] in *. unfold A_index, row. cbn [dim_x dim_y].
    pose proof (tile_coordinate_bound _ _ _ _ Hby Hty).
    pose proof (tile_coordinate_bound _ _ _ _ Hm Htx).
    rewrite <- Z.add_assoc. by apply flat_index_bound.
  - apply elem_of_grid_threads in Ht as (Hbx & Hby & Htx & Hty).
    cbn [dim_x dim_y] in *. unfold B_index, col. cbn [dim_x dim_y].
    pose proof (tile_coordinate_bound _ _ _ _ Hm Hty).
    pose proof (tile_coordinate_bound _ _ _ _ Hbx Htx).
    by apply flat_index_bound.
Qed.

Lemma launch_constant sched C :
  Forall (λ t, t ∈ grid_threads gridDim blockDim) sched →
  length C = Z.to_nat (wA * hA) →
  launch vzero vadd vmul BS blockDim A B wA sched C =
    Some (store_all (λ t, Z.to_nat (C_index blockDim wA t)) total C sched).
Proof.
  unfold launch, store_all. intros Hs. revert C.
  induction Hs as [|t sched Ht _ IH]; intros C Hlen; [done|].
  cbn [foldl mbind option_bind]. unfold thread_store at 2.
  rewrite thread_result_constant by done. cbn [mbind option_bind].
  unfold global_store. pose proof (C_index_in_range t Ht) as Hi.
  rewrite Hlen, Z2Nat.id by nia. bounds_hold. cbn [andb].
  apply IH. by rewrite length_insert.
Qed.

Lemma every_index_has_a_thread i :
  (i < Z.to_nat (wA * hA))%nat →
  i ∈ (λ t, Z.to_nat (C_index blockDim wA t)) <$> grid_threads gridDim blockDim.
Proof.
  intros Hi. assert (0 < wA) by nia.
  set (r := Z.of_nat i / wA). set (c := Z.of_nat i mod wA).
  assert (Hc : 0 <= c < wA) by (by apply Z.mod_pos_bound).
  assert (Hr : 0 <= r < hA).
  { split; [apply Z.div_pos; lia|]. apply Z.div_lt_upper_bound; lia. }
  apply list_elem_of_fmap.
  exists (Thread (c / BS) (r / BS) (c mod BS) (r mod BS)). split.
  - unfold C_index, row, col. cbn.
    rewrite (Z.mul_comm (r / BS)), (Z.mul_comm (c / BS)).
    rewrite <- !Z.div_mod by lia.
    rewrite (Z.mul_comm r). unfold r, c. rewrite <- Z.div_mod by lia. lia.
  - apply elem_of_grid_threads. cbn.
    repeat split; try (apply Z.div_pos; lia); try (apply Z.mod_pos_bound; lia);
      apply Z.div_lt_upper_bound; lia.
Qed.

(** With A filled with [a] and B with [b], every thread accumulates the same
    sum, every element of [C] is stored to, and the launch leaves [C]
    uniform, whatever it held before and however the threads are
    scheduled. *)
Lemma launch_over_constant_matrices sched C :
  sched ≡ₚ grid_threads gridDim blockDim →
  length C = Z.to_nat (wA * hA) →
  MatrixMulCUDA vzero vadd vmul BS blockDim sched C A B wA wA =
    Some (replicate (Z.to_nat (wA * hA)) total).
Proof.
  intros Hs Hlen. unfold MatrixMulCUDA. rewrite launch_constant; [|..|done].
  - f_equal. apply list_eq_same_length with (Z.to_nat (wA * hA)).
    + by rewrite length_replicate.
    + by rewrite store_all_length.
    + intros i x y Hi Hx Hy.
      rewrite store_all_covered in Hx.
      * rewrite lookup_replicate_2 in Hy by done. congruence.
      * rewrite Hs. by apply every_index_has_a_thread.
      * lia.
  - apply Forall_forall. intros t Ht. by rewrite <- Hs.
Qed.

End ConstantLaunch.

(** ** Runs in which nothing fails *)

Lemma u32_small n : 0 <= n < 2 ^ 32 → u32 n = n.
Proof. intros. unfold u32. by apply Z.mod_small. Qed.

Lemma to_int_small n : 0 <= n < 2 ^ 31 → to_int n = n.
Proof.
  intros. unfold to_int. rewrite u32_small by lia.
  destruct (n <? 2 ^ 31) eqn:E; [done|]. apply Z.ltb_ge in E. lia.
Qed.

Lemma ConstantInit_loop_spec n i data val :
  0 <= i → (Z.to_nat i + n <= length data)%nat →
  ConstantInit_loop n i data val =
    Some (take (Z.to_nat i) data ++ replicate n val ++ drop (Z.to_nat i + n) data).
Proof.
  revert i data. induction n as [|n IH]; intros i data Hi Hlen.
  - cbn [ConstantInit_loop replicate app]. by rewrite Nat.add_0_r, take_drop.
  - cbn [ConstantInit_loop]. unfold global_store. bounds_hold.
    cbn [andb mbind option_bind]. rewrite IH by (rewrite ?length_insert; lia).
    f_equal. replace (Z.to_nat (i + 1)) with (S (Z.to_nat i)) by lia.
    replace (S (Z.to_nat i) + n)%nat with (Z.to_nat i + S n)%nat by lia.
    rewrite drop_insert_lt by lia.
    rewrite (take_S_r _ _ val) by (apply list_lookup_insert_eq; lia).
    rewrite take_insert_ge by lia.
    by rewrite <- app_assoc.
Qed.

Lemma copy_floats_all n (dst src : list float) :
  length src = n → length dst = n → copy_floats n dst src = Some src.
Proof.
  intros Hs Hd. unfold copy_floats. rewrite decide_True by lia.
  by rewrite take_ge, drop_ge, app_nil_r by lia.
Qed.

Section QuietRuns.
Variable env : environment.
Hypothesis mallocs_succeed : ∀ p, malloc_ok env p = true.
Hypothesis calls_succeed : ∀ c, cuda_ok env c = true.

Lemma length_fresh bytes : length (fresh env bytes) = Z.to_nat (bytes / sizeof_float).
Proof. unfold fresh. by rewrite length_fmap, length_seq. Qed.

Lemma malloc_run p bytes w :
  malloc env p bytes w =
    (Done (), set_host p (Some (fresh env bytes)) (log (Malloc p bytes true) w)).
Proof. unfold malloc. by rewrite mallocs_succeed. Qed.

Lemma ConstantInit_run p size val w data :
  host w p = Some data → length data = Z.to_nat size →
  ConstantInit p size val w =
    (Done (), set_host p (Some (replicate (Z.to_nat size) val)) w).
Proof.
  intros Hp Hlen. unfold ConstantInit. rewrite Hp.
  rewrite ConstantInit_loop_spec by (cbn; lia).
  cbn [Z.to_nat take app]. rewrite drop_ge by (cbn; lia). by rewrite app_nil_r.
Qed.

Lemma checkCudaErrors_run c w w' :
  cuda_effect env c (log (Cuda c true) w) = Some w' →
  checkCudaErrors env c w = (Done (), w').
Proof. intros H. unfold checkCudaErrors. by rewrite calls_succeed, H. Qed.

Lemma launch_kernel_run BS grid threads wA wB w C A B C' :
  device w d_C = Some C → device w d_A = Some A → device w d_B = Some B →
  MatrixMulCUDA_float BS threads
    (schedule env (launched w) (grid_threads grid threads)) C A B wA wB = Some C' →
  launch_kernel env BS grid threads wA wB w =
    (Done (), set_device d_C (Some C')
                (count_launch (log (Launch BS grid threads wA wB) w))).
Proof. intros HC HA HB HK. unfold launch_kernel. by rewrite HC, HA, HB, HK. Qed.

Lemma check_loop_within_tolerance n i dimsA v N w :
  host w h_C = Some (replicate N v) →
  out_of_tolerance v dimsA = false →
  0 <= i → (Z.to_nat i + n <= N)%nat →
  check_loop n i dimsA true w = (Done true, w).
Proof.
  intros HC Hv. revert i. induction n as [|n IH]; intros i Hi Hn; [done|].
  cbn [check_loop]. rewrite HC. cbn [mbind option_bind].
  rewrite global_load_replicate by lia. rewrite Hv. apply IH; lia.
Qed.

End QuietRuns.

(** ** The driver on matrices where B is square *)

Lemma run_bind {A B} (c : prog A) (k : A → prog B) w a w1 r :
  c w = (Done a, w1) → (k a w1).1 = r → ((c ≫= k) w).1 = r.
Proof. intros Hc <-. by rewrite (bind_run_Done _ _ _ _ _ Hc). Qed.

(** One statement of a run that goes on: [tac] shows what it does. *)
Ltac run_with tac := eapply run_bind; [solve [tac]|].

Lemma cuda_effect_HostToDevice env dst src bytes w (from to : list float) :
  host w src = Some from → device w dst = Some to →
  length from = Z.to_nat (bytes / sizeof_float) →
  length to = Z.to_nat (bytes / sizeof_float) →
  cuda_effect env (cudaMemcpyHostToDevice dst src bytes) w =
    Some (set_device dst (Some from) w).
Proof.
  intros Hs Hd Hf Ht. cbn [cuda_effect]. rewrite Hs, Hd. cbn [mbind option_bind].
  by rewrite copy_floats_all.
Qed.

Lemma cuda_effect_DeviceToHost env dst src bytes w (from to : list float) :
  device w src = Some from → host w dst = Some to →
  length from = Z.to_nat (bytes / sizeof_float) →
  length to = Z.to_nat (bytes / sizeof_float) →
  cuda_effect env (cudaMemcpyDeviceToHost dst src bytes) w =
    Some (log (Received dst from) (set_host dst (Some from) w)).
Proof.
  intros Hs Hd Hf Ht. cbn [cuda_effect]. rewrite Hs, Hd. cbn [mbind option_bind].
  by rewrite copy_floats_all.
Qed.

Section ConstantRun.
Variable env : environment.
Hypothesis mallocs_succeed : ∀ p, malloc_ok env p = true.
Hypothesis calls_succeed : ∀ c, cuda_ok env c = true.
Hypothesis schedules_permute : ∀ n l, schedule env n l ≡ₚ l.

(** Tile size, tiles along the width of A, rows of blocks. *)
Variables bs tiles rows : Z.
Hypothesis supported : bs = 16 ∨ bs = 32.
Hypothesis tiles_nonneg : 0 <= tiles.
Hypothesis rows_nonneg : 0 <= rows.

Local Abbreviation wA := (tiles * bs).
Local Abbreviation hA := (rows * bs).
Local Abbreviation dimsA := (Dim3 wA hA 1).
Local Abbreviation dimsB := (Dim3 wA wA 1).

Hypothesis A_fits : wA * hA < 2 ^ 30.
Hypothesis B_fits : wA * wA < 2 ^ 30.

(** What every element of [C] is after a launch. *)
Local Abbreviation total :=
  (repeated_sum F32.zero F32.add (F32.mul F32.one valB) (Z.to_nat wA)).
Local Abbreviation uniform := (replicate (Z.to_nat (wA * hA)) total).
Local Abbreviation filled_A := (replicate (Z.to_nat (wA * hA)) F32.one).
Local Abbreviation filled_B := (replicate (Z.to_nat (wA * wA)) valB).

Lemma bs_pos : 0 < bs.
Proof. destruct supported; lia. Qed.

Lemma launch_for_constant C w :
  device w d_C = Some C → length C = Z.to_nat (wA * hA) →
  device w d_A = Some filled_A → device w d_B = Some filled_B →
  launch_for env bs (Dim3 tiles rows 1) (Dim3 bs bs 1) dimsA dimsB w =
    (Done (), set_device d_C (Some uniform)
                (count_launch (log (launch_event dimsA dimsB bs (Dim3 tiles rows 1)
                                                 (Dim3 bs bs 1)) w))).
Proof.
  intros HC Hlen HA HB. pose proof bs_pos.
  assert (Hw : 0 <= wA < 2 ^ 31) by nia.
  unfold launch_for, launch_event. cbn [dim_x]. rewrite to_int_small by done.
  assert (Hk : MatrixMulCUDA_float bs (Dim3 bs bs 1)
                 (schedule env (launched w) (grid_threads (Dim3 tiles rows 1) (Dim3 bs bs 1)))
                 C filled_A filled_B wA wA = Some uniform).
  { apply launch_over_constant_matrices; auto. }
  transitivity (launch_kernel env (if bs =? 16 then 16 else 32) (Dim3 tiles rows 1)
                  (Dim3 bs bs 1) wA wA w); [by destruct (bs =? 16)|].
  assert (Ht : (if bs =? 16 then 16 else 32) = bs)
    by (destruct supported as [-> | ->]; reflexivity).
  rewrite Ht. by eapply launch_kernel_run.
Qed.

Lemma timed_loop_constant n w :
  device w d_C = Some uniform →
  device w d_A = Some filled_A → device w d_B = Some filled_B →
  ∃ dev,
    timed_loop env n bs (Dim3 tiles rows 1) (Dim3 bs bs 1) dimsA dimsB w =
      (Done (), World (trace w ++ replicate n (launch_event dimsA dimsB bs
                                                 (Dim3 tiles rows 1) (Dim3 bs bs 1)))
                      (host w) dev (n + launched w)) ∧
    dev d_C = Some uniform.
Proof.
  revert w. induction n as [|n IH]; intros w HC HA HB.
  - exists (device w). split; [|done]. cbn. rewrite app_nil_r. by destruct w.
  - cbn [timed_loop].
    rewrite (bind_run_Done _ _ _ _ _
               (launch_for_constant _ _ HC (length_replicate _ _) HA HB)).
    destruct (IH (set_device d_C (Some uniform)
                    (count_launch (log (launch_event dimsA dimsB bs (Dim3 tiles rows 1)
                                          (Dim3 bs bs 1)) w)))) as (dev & Hrun & Hdev);
      [done..|].
    exists dev. split; [|done]. rewrite Hrun. cbn. rewrite <- app_assoc. cbn.
    do 2 f_equal. lia.
Qed.

(** When B is square, all sizes are multiples of a supported tile edge and
    nothing fails, the driver passes its own validation exactly when the
    sum of [wA] copies of [1.0f * 0.01f] is within tolerance of the
    reference value. *)
Lemma MatrixMultiply_on_square_B w :
  out_of_tolerance total dimsA = false →
  (MatrixMultiply env bs dimsA dimsB w).1 = Done EXIT_SUCCESS.
Proof.
  intros Hok. pose proof bs_pos.
  assert (Hw : 0 <= wA < 2 ^ 31) by nia.
  assert (HA : 0 <= wA * hA) by nia.
  assert (HB : 0 <= wA * wA) by nia.
  assert (HlenA : Z.to_nat (sizeof_float * (wA * hA) / sizeof_float) = Z.to_nat (wA * hA)).
  { by rewrite Z.mul_comm, Z.div_mul. }
  assert (HlenB : Z.to_nat (sizeof_float * (wA * wA) / sizeof_float) = Z.to_nat (wA * wA)).
  { by rewrite Z.mul_comm, Z.div_mul. }
  assert (HlenC : Z.to_nat (wA * hA * sizeof_float / sizeof_float) = Z.to_nat (wA * hA)).
  { by rewrite Z.div_mul. }
  unfold MatrixMultiply. cbv zeta. cbn [dim_x dim_y].
  rewrite !(u32_small (wA * hA)), !(u32_small (wA * wA)) by lia.
  rewrite !(u32_small (sizeof_float * _)), !(u32_small (_ * sizeof_float))
    by (unfold sizeof_float; lia).
  rewrite !to_int_small by lia.
  rewrite (u32_small bs) by (destruct supported; lia).
  rewrite !Z.div_mul by lia.
  run_with ltac:(apply malloc_run; done).
  run_with ltac:(apply malloc_run; done).
  run_with ltac:(eapply ConstantInit_run; [reflexivity|by rewrite length_fresh]).
  run_with ltac:(eapply ConstantInit_run; [reflexivity|by rewrite length_fresh]).
  run_with ltac:(apply malloc_run; done).
  run_with ltac:(reflexivity).
  wsimpl.
  run_with ltac:(reflexivity).
  do 3 run_with ltac:(by apply checkCudaErrors_run).
  run_with ltac:(apply checkCudaErrors_run; try done;
                 eapply cuda_effect_HostToDevice;
                 [reflexivity|reflexivity|by rewrite length_replicate
                 |by rewrite length_fresh]).
  run_with ltac:(apply checkCudaErrors_run; try done;
                 eapply cuda_effect_HostToDevice;
                 [reflexivity|reflexivity|by rewrite length_replicate
                 |by rewrite length_fresh]).
  rewrite (proj2 (Z.eqb_neq bs 0)) by lia. cbn [orb].
  run_with ltac:(reflexivity).
  run_with ltac:(reflexivity).
  run_with ltac:(eapply launch_for_constant;
                 [reflexivity|by rewrite length_fresh|reflexivity|reflexivity]).
  do 2 run_with ltac:(reflexivity).
  do 3 run_with ltac:(by apply checkCudaErrors_run).
  match goal with
  | |- ((timed_loop _ _ _ _ _ _ _ ≫= _) ?W).1 = _ =>
      destruct (timed_loop_constant nIter W) as (dev & Hrun & Hdev);
        [reflexivity..|]
  end.
  run_with ltac:(exact Hrun).
  do 3 run_with ltac:(by apply checkCudaErrors_run).
  run_with ltac:(reflexivity).
  run_with ltac:(apply checkCudaErrors_run; try done;
                 eapply cuda_effect_DeviceToHost;
                 [exact Hdev|reflexivity|by rewrite length_replicate
                 |by rewrite length_fresh]).
  run_with ltac:(reflexivity).
  run_with ltac:(eapply check_loop_within_tolerance;
                 [reflexivity|exact Hok|lia|lia]).
  run_with ltac:(reflexivity).
  do 3 run_with ltac:(reflexivity).
  do 3 run_with ltac:(by apply checkCudaErrors_run).
  run_with ltac:(reflexivity).
  reflexivity.
Qed.

End ConstantRun.

(** ** Launches that do not depend on the schedule *)

Section ScheduleIndependence.
Context {val : Type}.
Variable vzero : val.
Variables vadd vmul : val → val → val.
Variable BLOCK_SIZE : Z.
Variable blockDim : dim3.
Variables A B : list val.
Variable wA : Z.

Local Abbreviation store := (thread_store vzero vadd vmul BLOCK_SIZE blockDim A B wA).
Local Abbreviation index := (C_index blockDim wA).

Lemma thread_store_length C t C' : store C t = Some C' → length C' = length C.
Proof.
  unfold thread_store, global_store. intros H.
  apply bind_Some in H as (v & _ & H).
  destruct (_ && _); [|done]. apply (inj Some) in H as <-. apply length_insert.
Qed.

(** Two threads that store to different elements can go in either order. *)
Lemma thread_stores_commute C t1 t2 :
  index t1 ≠ index t2 →
  store C t1 ≫= (λ C', store C' t2) = store C t2 ≫= (λ C', store C' t1).
Proof.
  intros Hne. unfold thread_store, global_store.
  destruct (thread_result _ _ _ _ _ _ _ _ t1) as [v1|],
           (thread_result _ _ _ _ _ _ _ _ t2) as [v2|];
    cbn [mbind option_bind]; try done.
  - destruct ((0 <=? index t1) && (index t1 <? Z.of_nat (length C))) eqn:E1,
             ((0 <=? index t2) && (index t2 <? Z.of_nat (length C))) eqn:E2;
      cbn [mbind option_bind]; rewrite ?length_insert, ?E1, ?E2; try done.
    f_equal. apply andb_prop in E1 as [E1 _], E2 as [E2 _].
    apply Z.leb_le in E1, E2. apply list_insert_insert_ne. lia.
  - by destruct (_ && _).
  - by destruct (_ && _).
Qed.

Local Abbreviation step :=
  (λ (oC : option (list val)) (t : thread), oC ≫= (λ C', store C' t)).

Lemma launch_permutation sched sched' (oC : option (list val)) :
  sched ≡ₚ sched' → NoDup (index <$> sched) →
  foldl step oC sched = foldl step oC sched'.
Proof.
  intros Hp. revert oC. induction Hp as [|t l l' _ IH|t1 t2 l|l l' l'' H1 IH1 H2 IH2];
    intros oC Hnd.
  - done.
  - cbn [foldl]. apply IH. rewrite fmap_cons in Hnd. by apply NoDup_cons_1_2 in Hnd.
  - cbn [foldl]. f_equal. rewrite !fmap_cons in Hnd.
    apply NoDup_cons in Hnd as [Hne _]. rewrite not_elem_of_cons in Hne.
    destruct oC as [C|]; [|done]. cbn [mbind option_bind].
    apply thread_stores_commute. by destruct Hne.
  - rewrite IH1 by done. apply IH2. by rewrite <- H1.
Qed.

(** When no two threads of a launch store to the same element, every
    schedule of these threads leaves the same [C]. *)
Lemma launch_schedule_independent sched sched' C :
  sched ≡ₚ sched' → NoDup (index <$> sched) →
  launch vzero vadd vmul BLOCK_SIZE blockDim A B wA sched C =
  launch vzero vadd vmul BLOCK_SIZE blockDim A B wA sched' C.
Proof. intros. unfold launch. by apply launch_permutation. Qed.

End ScheduleIndependence.

Lemma NoDup_zrange n : NoDup (zrange n).
Proof.
  unfold zrange. apply NoDup_fmap_2; [|apply NoDup_seq].
  intros x y. apply Nat2Z.inj.
Qed.

Lemma NoDup_grid_threads gridDim blockDim : NoDup (grid_threads gridDim blockDim).
Proof.
  unfold grid_threads.
  apply NoDup_bind; [| |apply NoDup_zrange].
  { intros y1 y2 t _ _ H1 H2.
    apply list_elem_of_bind in H1 as (? & H1 & _). apply list_elem_of_bind in H1 as (? & H1 & _).
    apply list_elem_of_bind in H1 as (? & H1 & _). apply list_elem_of_singleton in H1.
    apply list_elem_of_bind in H2 as (? & H2 & _). apply list_elem_of_bind in H2 as (? & H2 & _).
    apply list_elem_of_bind in H2 as (? & H2 & _). apply list_elem_of_singleton in H2.
    congruence. }
  intros by_ _. apply NoDup_bind; [| |apply NoDup_zrange].
  { intros x1 x2 t _ _ H1 H2.
    apply list_elem_of_bind in H1 as (? & H1 & _). apply list_elem_of_bind in H1 as (? & H1 & _).
    apply list_elem_of_singleton in H1.
    apply list_elem_of_bind in H2 as (? & H2 & _). apply list_elem_of_bind in H2 as (? & H2 & _).
    apply list_elem_of_singleton in H2.
    congruence. }
  intros bx _. apply NoDup_bind; [| |apply NoDup_zrange].
  { intros y1 y2 t _ _ H1 H2.
    apply list_elem_of_bind in H1 as (? & H1 & _). apply list_elem_of_singleton in H1.
    apply list_elem_of_bind in H2 as (? & H2 & _). apply list_elem_of_singleton in H2.
    congruence. }
  intros ty _. apply NoDup_bind; [| |apply NoDup_zrange].
  { intros x1 x2 t _ _ H1 H2.
    apply list_elem_of_singleton in H1, H2. congruence. }
  intros tx _. apply NoDup_singleton.
Qed.

Lemma quotient_remainder_unique q1 r1 q2 r2 d :
  0 <= r1 < d → 0 <= r2 < d → q1 * d + r1 = q2 * d + r2 → q1 = q2 ∧ r1 = r2.
Proof.
  intros Hr1 Hr2 Heq.
  assert (q1 = q2) as ->.
  { transitivity ((q1 * d + r1) / d).
    - apply Z.div_unique with r1; lia.
    - symmetry. apply Z.div_unique with r2; lia. }
  split; [done|lia].
Qed.

(** When the columns of the grid fit in the row stride [wA], different
    threads of the grid store to different elements of [C]. *)
Lemma C_index_injective gridDim blockDim wA t1 t2 :
  dim_x gridDim * dim_x blockDim <= wA →
  t1 ∈ grid_threads gridDim blockDim → t2 ∈ grid_threads gridDim blockDim →
  C_index blockDim wA t1 = C_index blockDim wA t2 → t1 = t2.
Proof.
  intros Hfit H1 H2 Heq.
  apply elem_of_grid_threads in H1 as (Hbx1 & Hby1 & Htx1 & Hty1).
  apply elem_of_grid_threads in H2 as (Hbx2 & Hby2 & Htx2 & Hty2).
  unfold C_index, row, col in Heq.
  pose proof (tile_coordinate_bound _ _ _ _ Hbx1 Htx1).
  pose proof (tile_coordinate_bound _ _ _ _ Hbx2 Htx2).
  apply quotient_remainder_unique in Heq as [Hrow Hcol]; [|lia..].
  apply (quotient_remainder_unique _ _ _ _ (dim_y blockDim)) in Hrow as [? ?]; [|lia..].
  apply (quotient_remainder_unique _ _ _ _ (dim_x blockDim)) in Hcol as [? ?]; [|lia..].
  destruct t1, t2. simpl in *. congruence.
Qed.

(** The launch of a grid whose columns fit in the row stride leaves the same
    [C] under every schedule. *)
Lemma narrow_grid_is_deterministic {val : Type} (vzero : val) (vadd vmul : val → val → val)
    BLOCK_SIZE gridDim blockDim (A B C : list val) wA wB sched sched' :
  dim_x gridDim * dim_x blockDim <= wA →
  sched ≡ₚ grid_threads gridDim blockDim →
  sched' ≡ₚ grid_threads gridDim blockDim →
  MatrixMulCUDA vzero vadd vmul BLOCK_SIZE blockDim sched C A B wA wB =
  MatrixMulCUDA vzero vadd vmul BLOCK_SIZE blockDim sched' C A B wA wB.
Proof.
  intros Hfit Hs Hs'. unfold MatrixMulCUDA.
  apply launch_schedule_independent; [by rewrite Hs, Hs'|].
  rewrite Hs. apply NoDup_fmap_2_strong; [|apply NoDup_grid_threads].
  intros t1 t2 H1 H2. by apply C_index_injective with gridDim.
Qed.

(** ** The default configuration *)

Lemma run_then_exit (c : prog Z) (w : world) (code : Z) :
  (c w).1 = Done code →
  ((c ≫= λ matrix_result, exit matrix_result : prog Empty_set) w).1 = Exit code.
Proof.
  unfold mbind, prog_bind. destruct (c w) as [[a| |] w']; simpl; congruence.
Qed.

(** The sum the kernel leaves in every element of [C] for [wA = 320], and
    the reference value [320 * 0.01f]. *)
Lemma total_320 :
  repeated_sum F32.zero F32.add (F32.mul F32.one valB) 320 =
    S754_finite false 13421762 (-22) ∧
  reference (Dim3 320 320 1) = S754_finite false 13421772 (-22) ∧
  out_of_tolerance (S754_finite false 13421762 (-22)) (Dim3 320 320 1) = false.
Proof. vm_compute. done. Qed.

(** 320 x 320 matrices, tile edge 32: started without arguments, in an
    environment where no call fails, the program passes its validation and
    ends with status 0, whatever fresh memory holds and however the threads
    of each launch are scheduled. *)
Lemma default_configuration_passes env :
  device_found env = true →
  (∀ p, malloc_ok env p = true) →
  (∀ c, cuda_ok env c = true) →
  (∀ n l, schedule env n l ≡ₚ l) →
  (main env (Cmdline false None None None None) initial_world).1 = Exit EXIT_SUCCESS.
Proof.
  intros Hdev Hm Hc Hs. unfold main, findCudaDevice. rewrite Hdev. cbv zeta.
  do 5 run_with ltac:(reflexivity).
  apply run_then_exit.
  change (configured_dimsA _) with (Dim3 (10 * 32) (10 * 32) 1).
  change (configured_dimsB _) with (Dim3 (10 * 32) (10 * 32) 1).
  apply (MatrixMultiply_on_square_B env Hm Hc Hs 32 10 10);
    [by right|lia|lia|done|done|].
  destruct total_320 as (Ht & _ & Hok).
  change (Z.to_nat (10 * 32)) with 320%nat. rewrite Ht. exact Hok.
Qed.

(** ** Validation and exit status *)

(** [0.01f] is the binary32 number nearest to 1/100. *)
Lemma valB_is_nearest : SFdiv F32.prec F32.emax (F32.of_Z 1) (F32.of_Z 100) = valB.
Proof. vm_compute. reflexivity. Qed.

(** When the size of [C] fits in an [int], the validation loop visits as
    many elements as [C] has. *)
Lemma checked_is_size_of_C dimsA dimsB :
  0 <= dim_x dimsB * dim_y dimsA < 2 ^ 31 →
  checked dimsA dimsB = Z.to_nat (dim_x dimsB * dim_y dimsA).
Proof. intros H. unfold checked. by rewrite to_int_small. Qed.

Lemma failing_elements_spec dimsA (C : list float) (i : nat) (v : float) :
  (Z.of_nat i, v) ∈ failing_elements dimsA C ↔
  C !! i = Some v ∧ out_of_tolerance v dimsA = true.
Proof.
  unfold failing_elements, indexed_from.
  rewrite list_elem_of_filter, elem_of_lookup_imap. simpl. split.
  - intros (Hoot & j & y & [= Hj ->] & Hy).
    assert (i = j) as -> by lia. done.
  - intros [Hi Hoot]. split; [done|]. exists i, v. by rewrite Z.add_0_l.
Qed.

Lemma within_tolerance_false dimsA (C : list float) :
  forallb (λ v, negb (out_of_tolerance v dimsA)) C = false ↔
  ∃ (i : nat) (v : float), C !! i = Some v ∧ out_of_tolerance v dimsA = true.
Proof.
  induction C as [|c C IH]; simpl.
  - split; [done|]. by intros (i & v & Hi & _).
  - rewrite andb_false_iff, negb_false_iff, IH. split.
    + intros [Hc|(i & v & Hi & Hv)]; [by exists 0%nat, c|by exists (S i), v].
    + intros ([|i] & v & Hi & Hv); simplify_eq/=; eauto.
Qed.

Lemma visited_out_of_tolerance dimsA dimsB (hC : list float) :
  forallb (λ v, negb (out_of_tolerance v dimsA)) (take (checked dimsA dimsB) hC) = false ↔
  some_element_out_of_tolerance dimsA dimsB hC.
Proof.
  rewrite within_tolerance_false. unfold some_element_out_of_tolerance.
  split; intros (i & v & H).
  - destruct H as [Hi Hv]. apply lookup_take_Some in Hi as [Hi Hlt]. by exists i, v.
  - destruct H as (Hlt & Hi & Hv). exists i, v. by rewrite lookup_take_lt.
Qed.

(** When the number of elements of [C], as the [unsigned int] the driver
    computes, is below [2^31], the loop bound [static_cast<int>(...)] is
    that number and the loop goes through all that was copied back. *)
Lemma visited_is_all_received dimsA dimsB (hC : list float) :
  u32 (dim_x dimsB * dim_y dimsA) < 2 ^ 31 →
  (checked dimsA dimsB ≤ length hC)%nat →
  length hC = Z.to_nat (mem_size_C dimsA dimsB / sizeof_float) →
  length hC = checked dimsA dimsB.
Proof.
  intros Hn Hle Hlen. apply Nat.le_antisymm; [|done].
  rewrite Hlen. unfold checked, mem_size_C, to_int.
  rewrite (proj2 (Z.ltb_lt _ _) Hn).
  assert (0 <= u32 (dim_x dimsB * dim_y dimsA)) by (apply Z.mod_pos_bound; lia).
  apply Z2Nat.inj_le; [apply Z.div_pos; [apply Z.mod_pos_bound|]; done|done|].
  apply Z.div_le_upper_bound; [done|]. unfold u32 at 1.
  etransitivity; [apply Z.mod_le; unfold sizeof_float; lia|]. unfold sizeof_float. lia.
Qed.

Ltac split_elem_of H :=
  repeat first
    [ apply elem_of_app in H as [H|H]
    | apply elem_of_replicate_inv in H
    | apply elem_of_cons in H as [H|H]
    | apply list_elem_of_fmap in H as (? & H & _)
    | by apply elem_of_nil in H ];
  try discriminate H.

Lemma result_line_once bs dimsA dimsB (hC : list float) correct b :
  Print (MsgResult b) ∈
    setup_events bs dimsA dimsB ++ [Received h_C hC; Print MsgChecking]
      ++ error_report dimsA (take (checked dimsA dimsB) hC)
      ++ [Print (MsgResult correct)] ++ cleanup_events ↔
  b = correct.
Proof.
  split.
  - intros H. unfold setup_events, cleanup_events, error_report, the_launch,
      launch_event in H.
    split_elem_of H. by injection H.
  - intros ->. rewrite !elem_of_app. right. right. right. left.
    apply list_elem_of_singleton. done.
Qed.

(** X25: in every call of [MatrixMultiply] that returns, [Result = FAIL] is
    printed exactly when some element the validation loop visits (the
    first [static_cast<int>(dimsC.x * dimsC.y)] elements of what was copied
    back into [h_C]) has [|C[i] - wA*0.01| / |C[i]| / wA] above [1e-6]; the
    call returns [EXIT_SUCCESS] exactly when none has and [EXIT_FAILURE]
    exactly when one has; when [dimsC.x * dimsC.y] is below [2^31] as an
    [unsigned int], the loop visits all that was copied back.  [main] ends
    the process with the value [MatrixMultiply] returned. *)
Theorem exit_status_reflects_validation :
  (∀ env block_size dimsA dimsB w c w',
     MatrixMultiply env block_size dimsA dimsB w = (Done c, w') →
     ∃ hC evs,
       trace w' = trace w ++ evs ∧
       Received h_C hC ∈ evs ∧
       (Print (MsgResult false) ∈ evs ↔ some_element_out_of_tolerance dimsA dimsB hC) ∧
       (c = EXIT_SUCCESS ↔ ¬ some_element_out_of_tolerance dimsA dimsB hC) ∧
       (c = EXIT_FAILURE ↔ some_element_out_of_tolerance dimsA dimsB hC) ∧
       (u32 (dim_x dimsB * dim_y dimsA) < 2 ^ 31 → length hC = checked dimsA dimsB)) ∧
  (∀ env cl w c w',
     flag_help cl = false →
     device_found env = true →
     dim_x (configured_dimsA cl) = dim_y (configured_dimsB cl) →
     MatrixMultiply env block_size_main (configured_dimsA cl) (configured_dimsB cl)
       (entering_MatrixMultiply cl w) = (Done c, w') →
     main env cl w = (Exit c, w')) ∧
  EXIT_SUCCESS = 0 ∧ EXIT_FAILURE = 1.
Proof.
  split; [|split; [|done]].
  { intros env bs dimsA dimsB w c w' H.
    apply MatrixMultiply_Done_received in H as (hC & Hlen & Ht & Hc & Hsize).
    exists hC. eexists. split; [exact Ht|]. split.
    { rewrite !elem_of_app. right. left. apply elem_of_cons. by left. }
    rewrite result_line_once. rewrite <- visited_out_of_tolerance.
    assert (u32 (dim_x dimsB * dim_y dimsA) < 2 ^ 31 → length hC = checked dimsA dimsB)
      by (intros; by apply visited_is_all_received).
    subst c. unfold EXIT_SUCCESS, EXIT_FAILURE.
    destruct (forallb _ _); intuition (congruence || lia). }
  intros env cl w c w' Hhelp Hdev Hdims HM.
  unfold main, findCudaDevice. cbv zeta. rewrite Hhelp, Hdev, Hdims, Z.eqb_refl.
  unfold mbind, prog_bind, printf, emit, mret, prog_ret. simpl.
  unfold entering_MatrixMultiply in HM. by rewrite HM.
Qed.

(** ** Dimension check in [main] *)

(** C4: when the configured width of A differs from the configured height
    of B, no run of [main] obtains memory or gives work to the device, and
    a run that gets past the help text and the device selection prints the
    error and leaves with [EXIT_FAILURE] right after selecting the device. *)
Theorem dimension_mismatch_rejected_before_allocation env cl w :
  dim_x (configured_dimsA cl) ≠ dim_y (configured_dimsB cl) →
  ∃ evs,
    trace (main env cl w).2 = trace w ++ evs ∧
    Forall (λ e, is_allocation_or_device_work e = false) evs ∧
    (flag_help cl = false → device_found env = true →
     (main env cl w).1 = Exit EXIT_FAILURE ∧
     evs = [ Print MsgStarting; FindDevice true;
             Print (MsgOuterDimensions (dim_x (configured_dimsA cl))
                                       (dim_y (configured_dimsB cl))) ]).
Proof.
  intros Hne. apply Z.eqb_neq in Hne.
  unfold main, findCudaDevice. cbv zeta. rewrite Hne.
  unfold mbind, prog_bind, printf, emit, exit, mret, prog_ret.
  destruct (flag_help cl), (device_found env); simpl;
    rewrite <- ?app_assoc; simpl; eexists; (split; [reflexivity|]);
    (split; [by repeat constructor|]); by intros.
Qed.

Lemma dimension_mismatch_witness :
  ∃ evs,
    trace (main calm (Cmdline false (Some 32) None None (Some 64)) initial_world).2
      = [] ++ evs ∧
    Forall (λ e, is_allocation_or_device_work e = false) evs ∧
    (false = false → true = true →
     (main calm (Cmdline false (Some 32) None None (Some 64)) initial_world).1
       = Exit EXIT_FAILURE ∧
     evs = [ Print MsgStarting; FindDevice true; Print (MsgOuterDimensions 32 64) ]).
Proof.
  apply (dimension_mismatch_rejected_before_allocation calm
           (Cmdline false (Some 32) None None (Some 64)) initial_world).
  vm_compute. discriminate.
Defined.

(** ** Host allocation failure *)

(** C7, the failing path: when [malloc] returns [NULL] for [h_A] and A is
    not empty, the driver goes on to allocate [h_B] and then stores through
    the null pointer in [ConstantInit]; nothing is reported and the process
    does not reach [exit]. *)
Theorem null_h_A_is_not_detected env block_size dimsA dimsB w :
  malloc_ok env h_A = false →
  0 < to_int (u32 (dim_x dimsA * dim_y dimsA)) →
  (MatrixMultiply env block_size dimsA dimsB w).1 = Fault ∧
  trace (MatrixMultiply env block_size dimsA dimsB w).2 =
    trace w ++ [ Malloc h_A (mem_size_A dimsA) false;
                 Malloc h_B (mem_size_B dimsB) (malloc_ok env h_B) ].
Proof.
  intros HA Hsize. apply Z.ltb_lt in Hsize.
  unfold MatrixMultiply. cbv zeta.
  unfold mbind, prog_bind, malloc, ConstantInit. rewrite HA.
  destruct (malloc_ok env h_B); simpl; rewrite Hsize; simpl;
    by rewrite <- app_assoc.
Qed.

Lemma null_h_A_witness :
  (MatrixMultiply (out_of_memory_for h_A) 32 (square 320) (square 320) initial_world).1
    = Fault ∧
  trace (MatrixMultiply (out_of_memory_for h_A) 32 (square 320) (square 320)
           initial_world).2 =
    [] ++ [ Malloc h_A 409600 false; Malloc h_B 409600 true ].
Proof.
  apply (null_h_A_is_not_detected (out_of_memory_for h_A) 32 (square 320) (square 320)
           initial_world); vm_compute; reflexivity.
Defined.

(** The sibling path: a [NULL] [h_C] is tested for right after its [malloc],
    reported, and ends the process with [EXIT_FAILURE]. *)
Lemma null_h_C_is_detected :
  let r := MatrixMultiply (out_of_memory_for h_C) 32 (square 32) (square 32)
             initial_world in
  r.1 = Exit EXIT_FAILURE ∧
  trace r.2 = [ Malloc h_A 4096 true; Malloc h_B 4096 true; Malloc h_C 4096 false;
                Print MsgAllocCFailed ].
Proof. vm_compute. done. Qed.

(** ** Release of buffers *)

Lemma outstanding_neutral evs live :
  Forall neutral evs → foldl outstanding_step live evs = live.
Proof.
  induction 1 as [|e evs He _ IH]; [done|]. simpl. rewrite <- IH at 2.
  by destruct e.
Qed.

Lemma acquired_neutral evs : Forall neutral evs → acquired evs = [].
Proof.
  induction 1 as [|e evs He _ IH]; [done|].
  destruct e; try done; exact IH.
Qed.

Lemma error_report_neutral dimsA C : Forall neutral (error_report dimsA C).
Proof. unfold error_report. apply Forall_fmap, Forall_true. done. Qed.

Lemma launches_neutral n dimsA dimsB bs g t :
  Forall neutral (replicate n (launch_event dimsA dimsB bs g t)).
Proof. apply Forall_replicate. done. Qed.

(** C8, as the code has it: when [MatrixMultiply] returns, with either
    status, it obtained the three host and the three device buffers and
    released every one of them before returning. *)
Theorem buffers_released_on_return env block_size dimsA dimsB w c w' :
  MatrixMultiply env block_size dimsA dimsB w = (Done c, w') →
  ∃ evs,
    trace w' = trace w ++ evs ∧
    acquired evs = [inl h_A; inl h_B; inl h_C; inr d_A; inr d_B; inr d_C] ∧
    outstanding evs = [].
Proof.
  intros H. apply MatrixMultiply_Done in H as (hC & _ & Ht & _).
  eexists. split; [exact Ht|].
  unfold outstanding, acquired, setup_events, the_launch.
  rewrite !omap_app, !foldl_app.
  fold acquired.
  rewrite (acquired_neutral (replicate _ _)) by apply launches_neutral.
  rewrite (acquired_neutral (error_report _ _)) by apply error_report_neutral.
  rewrite (outstanding_neutral (replicate _ _)) by apply launches_neutral.
  rewrite (outstanding_neutral (error_report _ _)) by apply error_report_neutral.
  split; reflexivity.
Qed.

(** C8, counterexample: when the allocation of [h_C] fails the process
    leaves through [exit] while [h_A] and [h_B] are still allocated. *)
Lemma early_exit_leaves_buffers :
  let r := MatrixMultiply (out_of_memory_for h_C) 32 (square 32) (square 32)
             initial_world in
  r.1 = Exit EXIT_FAILURE ∧ outstanding (trace r.2) = [inl h_B; inl h_A].
Proof. vm_compute. done. Qed.

(** ** Exhaustive validation *)

(** X26: the validation loop stops at no element.  In every call that
    returns, the events between "Checking..." and the result line are
    exactly one error message per out-of-tolerance element among those the
    loop visits (the first [static_cast<int>(dimsC.x * dimsC.y)] elements
    of what was copied back), in index order, each with the index, the
    computed value and the reference value; the result line, the clean-up
    and the return come after all of them; when [dimsC.x * dimsC.y] is
    below [2^31] as an [unsigned int], the loop visits all that was copied
    back. *)
Theorem validation_is_exhaustive env block_size dimsA dimsB w c w' :
  MatrixMultiply env block_size dimsA dimsB w = (Done c, w') →
  ∃ hC before after,
    let visited := take (checked dimsA dimsB) hC in
    trace w' = trace w ++ before ++ error_report dimsA visited ++ after ∧
    before = setup_events block_size dimsA dimsB
               ++ [Received h_C hC; Print MsgChecking] ∧
    after = Print (MsgResult (bool_decide (failing_elements dimsA visited = [])))
              :: cleanup_events ∧
    length visited = checked dimsA dimsB ∧
    (∀ (i : nat) (v : float),
       Print (MsgError (Z.of_nat i) v (reference dimsA)) ∈ error_report dimsA visited ↔
       (i < checked dimsA dimsB)%nat ∧ hC !! i = Some v ∧
       out_of_tolerance v dimsA = true) ∧
    (c = EXIT_FAILURE ↔ failing_elements dimsA visited ≠ []) ∧
    (u32 (dim_x dimsB * dim_y dimsA) < 2 ^ 31 → visited = hC).
Proof.
  intros H. apply MatrixMultiply_Done_received in H as (hC & Hlen & Ht & Hc & Hsize).
  exists hC. eexists. eexists. cbv zeta.
  set (visited := take (checked dimsA dimsB) hC) in *.
  assert (Hfail : forallb (λ v, negb (out_of_tolerance v dimsA)) visited
                  = bool_decide (failing_elements dimsA visited = [])).
  { symmetry. destruct (forallb _ _) eqn:E.
    - apply bool_decide_eq_true. apply elem_of_nil_inv. intros [j v] Hin.
      assert (out_of_tolerance v dimsA = true) as Hv.
      { by apply list_elem_of_filter in Hin as [? _]. }
      rewrite forallb_forall in E.
      assert (In v visited) as Hin'.
      { apply list_elem_of_filter in Hin as [_ Hin].
        apply elem_of_lookup_imap in Hin as (k & y & [= _ ->] & Hk).
        apply list_elem_of_In. by eapply list_elem_of_lookup_2. }
      apply E in Hin'. by rewrite Hv in Hin'.
    - apply bool_decide_eq_false. intros Hnil.
      apply within_tolerance_false in E as (i & v & Hi & Hv).
      assert ((Z.of_nat i, v) ∈ failing_elements dimsA visited) as Hin
        by by apply failing_elements_spec.
      rewrite Hnil in Hin. by apply elem_of_nil in Hin. }
  split; [|split; [reflexivity|split; [reflexivity|]]].
  { rewrite Ht, Hfail. by rewrite <- !app_assoc. }
  split; [unfold visited; rewrite length_take; lia|]. split.
  - intros i v. unfold error_report. rewrite list_elem_of_fmap. split.
    + intros ([j v'] & Heq & Hin). simpl in Heq.
      injection Heq as <- <-.
      apply failing_elements_spec in Hin as [Hi Hv].
      apply lookup_take_Some in Hi as [Hi Hlt]. done.
    + intros (Hlt & Hi & Hv). exists (Z.of_nat i, v). split; [done|].
      apply failing_elements_spec. unfold visited. by rewrite lookup_take_lt.
  - split.
    + rewrite Hc, Hfail. unfold EXIT_SUCCESS, EXIT_FAILURE.
      case_bool_decide; split; intros; congruence || lia || done.
    + intros Hn. unfold visited. apply take_ge.
      by rewrite (visited_is_all_received dimsA dimsB hC).
Qed.

(** ** The theorems at concrete runs *)

Lemma run_Done {A} (c : prog A) (w : world) (a : A) :
  (c w).1 = Done a → c w = (Done a, (c w).2).
Proof. destruct (c w) as [r w']. simpl. by intros ->. Qed.

(** [-wA=16 -hA=16 -wB=16 -hB=16] in the environment [calm]: the grid of
    the launches is empty, [C] keeps the zeros of the fresh buffer, every
    element fails the test and the process ends with status 1. *)
Lemma exit_status_witness :
  let cl := square_cmdline 16 in
  let w := entering_MatrixMultiply cl initial_world in
  let r := MatrixMultiply calm block_size_main (configured_dimsA cl)
             (configured_dimsB cl) w in
  r.1 = Done EXIT_FAILURE ∧
  main calm cl initial_world = (Exit EXIT_FAILURE, r.2) ∧
  ∃ hC evs,
    trace r.2 = trace w ++ evs ∧
    Received h_C hC ∈ evs ∧
    (Print (MsgResult false) ∈ evs ↔
       some_element_out_of_tolerance (configured_dimsA cl) (configured_dimsB cl) hC) ∧
    (EXIT_FAILURE = EXIT_SUCCESS ↔
       ¬ some_element_out_of_tolerance (configured_dimsA cl) (configured_dimsB cl) hC) ∧
    (EXIT_FAILURE = EXIT_FAILURE ↔
       some_element_out_of_tolerance (configured_dimsA cl) (configured_dimsB cl) hC) ∧
    (u32 (dim_x (configured_dimsB cl) * dim_y (configured_dimsA cl)) < 2 ^ 31 →
     length hC = checked (configured_dimsA cl) (configured_dimsB cl)).
Proof.
  intros cl w r.
  assert (Hr : r.1 = Done EXIT_FAILURE) by (vm_compute; reflexivity).
  apply run_Done in Hr as Hrun.
  destruct exit_status_reflects_validation as (HM & Hmain & _).
  split; [exact Hr|]. split.
  - apply Hmain; [reflexivity|reflexivity|reflexivity|exact Hrun].
  - exact (HM _ _ _ _ _ _ _ Hrun).
Defined.

Lemma buffers_released_witness :
  let r := MatrixMultiply calm 8 (square 16) (square 16) initial_world in
  r.1 = Done EXIT_FAILURE ∧
  ∃ evs,
    trace r.2 = trace initial_world ++ evs ∧
    acquired evs = [inl h_A; inl h_B; inl h_C; inr d_A; inr d_B; inr d_C] ∧
    outstanding evs = [].
Proof.
  intros r.
  assert (Hr : r.1 = Done EXIT_FAILURE) by (vm_compute; reflexivity).
  split; [exact Hr|].
  exact (buffers_released_on_return _ _ _ _ _ _ _ (run_Done _ _ _ Hr)).
Defined.

(** [-wA=16 -hA=16 -wB=16 -hB=16] where fresh memory holds the reference
    value at even offsets: the empty grid leaves [C] as allocated. *)
Lemma validation_witness :
  let r := MatrixMultiply patchy 32 (square 16) (square 16) initial_world in
  r.1 = Done EXIT_FAILURE ∧
  ∃ hC before after,
    let visited := take (checked (square 16) (square 16)) hC in
    trace r.2 = trace initial_world ++ before ++ error_report (square 16) visited ++ after ∧
    before = setup_events 32 (square 16) (square 16)
               ++ [Received h_C hC; Print MsgChecking] ∧
    after = Print (MsgResult (bool_decide (failing_elements (square 16) visited = [])))
              :: cleanup_events ∧
    length visited = checked (square 16) (square 16) ∧
    (∀ (i : nat) (v : float),
       Print (MsgError (Z.of_nat i) v (reference (square 16)))
         ∈ error_report (square 16) visited ↔
       (i < checked (square 16) (square 16))%nat ∧ hC !! i = Some v ∧
       out_of_tolerance v (square 16) = true) ∧
    (EXIT_FAILURE = EXIT_FAILURE ↔ failing_elements (square 16) visited ≠ []) ∧
    (u32 (dim_x (square 16) * dim_y (square 16)) < 2 ^ 31 → visited = hC).
Proof.
  intros r.
  assert (Hr : r.1 = Done EXIT_FAILURE) by (vm_compute; reflexivity).
  split; [exact Hr|].
  exact (validation_is_exhaustive _ _ _ _ _ _ _ (run_Done _ _ _ Hr)).
Defined.

(** In that run the 128 elements at odd offsets are out of tolerance, and
    each of them has its own error message. *)
Lemma validation_reports_128_elements :
  let r := MatrixMultiply patchy 32 (square 16) (square 16) initial_world in
  length (filter (λ e, is_error_message e = true) (trace r.2)) = 128%nat.
Proof. vm_compute. reflexivity. Qed.

(** ** Validation when the size of [C] does not fit in an [int] *)

(** C3, the failing input: [-wA=32 -hA=2 -wB=1073741952 -hB=32], fresh
    memory holding [-1.0f].  [dimsC.x * dimsC.y] is [2^31 + 256]; the cast
    to [int] in the loop condition makes it negative, so the loop body
    never runs.  The 256 elements copied back into [h_C] are all out of
    tolerance, and yet the driver prints [Result = PASS] and the process
    ends with status 0. *)
Theorem validation_passes_an_unvisited_C :
  let cl := Cmdline false (Some 32) (Some 2) (Some 1073741952) (Some 32) in
  let r := main (with_junk (λ _, minus_one)) cl initial_world in
  dim_x (configured_dimsA cl) = dim_y (configured_dimsB cl) ∧
  trace r.2 !! 323%nat = Some (Received h_C (replicate 256 minus_one)) ∧
  out_of_tolerance minus_one (configured_dimsA cl) = true ∧
  trace r.2 !! 325%nat = Some (Print (MsgResult true)) ∧
  r.1 = Exit EXIT_SUCCESS.
Proof. vm_compute. done. Qed.

(** C9, the failing input: [MatrixMultiply] as [main] calls it for
    [-wA=32 -hA=2 -wB=1073741952 -hB=32].  The number of elements of [C]
    is [2^31 + 256] as an [unsigned int] and [-2147483392] as the [int]
    the loop compares with; the byte count of [C] wraps to 1024.  None of
    the 256 elements copied back is visited: all are out of tolerance,
    none is reported, and the result line follows "Checking..." at once. *)
Theorem validation_visits_no_element_of_a_large_C :
  let dimsA := Dim3 32 2 1 in
  let dimsB := Dim3 1073741952 32 1 in
  let r := MatrixMultiply (with_junk (λ _, minus_one)) block_size_main dimsA dimsB
             initial_world in
  u32 (dim_x dimsB * dim_y dimsA) = 2 ^ 31 + 256 ∧
  to_int (dim_x dimsB * dim_y dimsA) = -2147483392 ∧
  mem_size_C dimsA dimsB = 1024 ∧
  trace r.2 !! 320%nat = Some (Received h_C (replicate 256 minus_one)) ∧
  out_of_tolerance minus_one dimsA = true ∧
  trace r.2 !! 321%nat = Some (Print MsgChecking) ∧
  trace r.2 !! 322%nat = Some (Print (MsgResult true)) ∧
  filter (λ e, is_error_message e = true) (trace r.2) = [] ∧
  r.1 = Done EXIT_SUCCESS.
Proof. vm_compute. done. Qed.

(** ** The kernel at concrete launches *)

(** C1, the failing launch: one block of 16 x 16 threads, 16 x 16 matrices,
    [A] with its only one at row 0, column 1 and [B] with its only one at
    row 1, column 0.  Row 0 of [A] times column 0 of [B] is 1, yet the kernel
    stores 0 at row 0, column 0; the one ends up at row 1, column 1, where
    the product has 0: the launch computes [B * A]. *)
Theorem kernel_stores_transposed_product :
  let A := unit_at 256 1 in
  let B := unit_at 256 16 in
  let C := MatrixMulCUDA_float 16 (Dim3 16 16 1)
             (grid_threads (Dim3 1 1 1) (Dim3 16 16 1))
             (replicate 256 minus_one) A B 16 16 in
  element C 0 = Some F32.zero ∧
  spec_dot_product F32.zero F32.add F32.mul A B 16 16 0 0 = Some F32.one ∧
  element C 17 = Some F32.one ∧
  spec_dot_product F32.zero F32.add F32.mul A B 16 16 1 1 = Some F32.zero.
Proof. vm_compute. done. Qed.

(** C2, the failing launch: A is 32 x 32, B is 32 rows of width 64, both
    constant as the driver fills them, tile edge 32.  The kernel writes [C]
    with the row stride [wA = 32], so the elements of [C] from offset 1056
    on keep what the fresh buffer held, here -1, and fail the tolerance
    test. *)
Theorem constant_inputs_leave_C_unwritten :
  let dimsA := Dim3 32 32 1 in
  let dimsB := Dim3 64 32 1 in
  let C := MatrixMulCUDA_float 32 (Dim3 32 32 1)
             (grid_threads (Dim3 2 1 1) (Dim3 32 32 1))
             (replicate 2048 minus_one) (replicate 1024 F32.one) (replicate 2048 valB)
             (dim_x dimsA) (dim_x dimsB) in
  dim_x dimsA = dim_y dimsB ∧
  length <$> C = Some 2048%nat ∧
  element C 1056 = Some minus_one ∧
  out_of_tolerance minus_one dimsA = true.
Proof. vm_compute. done. Qed.

(** C5, the failing launch: A is 32 rows of width 64, B is 64 rows of width
    32, tile edge 32, so B has 2048 elements and C has 1024.  In tiling step
    1 the thread (31, 31) of block (0, 0) reads [B] at 4063, it would store
    to [C] at 2015, and the launch has no defined result. *)
Theorem indices_leave_the_buffers :
  let wA := 64 in let hA := 32 in let wB := 32 in let hB := 64 in
  let blockDim := Dim3 32 32 1 in
  let t := Thread 0 0 31 31 in
  wA = hB ∧
  B_index 32 blockDim wA t 1 = 4063 ∧ wB * hB = 2048 ∧
  C_index blockDim wA t = 2015 ∧ wB * hA = 1024 ∧
  MatrixMulCUDA_float 32 blockDim (grid_threads (Dim3 1 1 1) blockDim)
    (replicate 1024 F32.zero) (replicate 2048 F32.one) (replicate 2048 valB) wA wB
    = None.
Proof. vm_compute. done. Qed.

(** C10, the failing launch: A is 32 rows of width 16 with its only one at
    offset 0, B is 16 rows of width 32 filled with ones, tile edge 16.  The
    threads (0, 15) of block (1, 0) and (0, 0) of block (0, 1) both store to
    [C] at 256, the first 1 and the second 0.  Two schedules of the same
    threads leave different values there. *)
Theorem output_depends_on_schedule :
  let g := grid_threads (Dim3 2 2 1) (Dim3 16 16 1) in
  let run sched :=
    MatrixMulCUDA_float 16 (Dim3 16 16 1) sched
      (replicate 1024 F32.zero) (unit_at 512 0) (replicate 512 F32.one) 16 32 in
  reverse g ≡ₚ g ∧
  C_index (Dim3 16 16 1) 16 (Thread 1 0 0 15) = 256 ∧
  C_index (Dim3 16 16 1) 16 (Thread 0 1 0 0) = 256 ∧
  element (run g) 256 = Some F32.zero ∧
  element (run (reverse g)) 256 = Some F32.one.
Proof.
  intros g run. split; [apply reverse_Permutation|]. vm_compute. done.
Qed.

(** * Further properties of the kernel *)

Section KernelFacts.
Context {val : Type}.
Variable vzero : val.
Variables vadd vmul : val → val → val.
Variable BLOCK_SIZE : Z.
Variable blockDim : dim3.
Variables A B : list val.
Variable wA : Z.

Local Abbreviation store := (thread_store vzero vadd vmul BLOCK_SIZE blockDim A B wA).
Local Abbreviation index := (C_index blockDim wA).
Local Abbreviation value := (thread_result vzero vadd vmul BLOCK_SIZE blockDim A B wA).
Local Abbreviation run := (launch vzero vadd vmul BLOCK_SIZE blockDim A B wA).

Lemma launch_cons t sched C : run (t :: sched) C = store C t ≫= run sched.
Proof.
  unfold launch. cbn [foldl mbind option_bind].
  destruct (thread_store _ _ _ _ _ _ _ _ C t) as [C1|]; [done|].
  cbn [mbind option_bind]. induction sched as [|t' sched IH]; [done|]. exact IH.
Qed.

Lemma thread_store_Some C t C' :
  store C t = Some C' →
  ∃ v, value t = Some v ∧ 0 <= index t < Z.of_nat (length C) ∧
       C' = <[Z.to_nat (index t) := v]> C.
Proof.
  unfold thread_store, global_store. intros H.
  apply bind_Some in H as (v & Hv & H). exists v. split; [done|].
  destruct (_ && _) eqn:E; [|done]. apply (inj Some) in H as <-.
  apply andb_prop in E as [E1 E2]. apply Z.leb_le in E1. apply Z.ltb_lt in E2.
  by split.
Qed.

(** A launch keeps the length of [C] and changes no element that is not
    the target of a store of one of its threads. *)
Lemma launch_frame sched C C' :
  run sched C = Some C' →
  length C' = length C ∧
  ∀ i : nat, Z.of_nat i ∉ index <$> sched → C' !! i = C !! i.
Proof.
  revert C. induction sched as [|t sched IH]; intros C H.
  - apply (inj Some) in H as <-. by split.
  - rewrite launch_cons in H. apply bind_Some in H as (C1 & Hs & H).
    apply thread_store_Some in Hs as (v & _ & Hi & ->).
    apply IH in H as [Hl Hf]. rewrite length_insert in Hl. split; [done|].
    intros i Hni. rewrite fmap_cons, not_elem_of_cons in Hni.
    destruct Hni as [Hne Hni]. rewrite Hf by done.
    apply list_lookup_insert_ne. lia.
Qed.

(** When no two threads of the schedule store to the same element, each
    thread's sum is what the launch leaves at the thread's index. *)
Lemma launch_delivers sched C C' t :
  NoDup (index <$> sched) → run sched C = Some C' → t ∈ sched →
  0 <= index t ∧ ∃ v, value t = Some v ∧ C' !! Z.to_nat (index t) = Some v.
Proof.
  revert C. induction sched as [|t' sched IH]; intros C Hnd H Ht.
  - by apply elem_of_nil in Ht.
  - rewrite fmap_cons in Hnd. apply NoDup_cons in Hnd as [Hni Hnd].
    rewrite launch_cons in H. apply bind_Some in H as (C1 & Hs & H).
    apply elem_of_cons in Ht as [->|Ht]; [|by apply (IH C1)].
    apply thread_store_Some in Hs as (v & Hv & Hi & ->).
    split; [lia|]. exists v. split; [done|].
    apply launch_frame in H as [_ Hf]. rewrite Hf by (by rewrite Z2Nat.id by lia).
    apply list_lookup_insert_eq. lia.
Qed.

(** Storing to [C] what it already holds at every index changes nothing. *)
Lemma launch_fixpoint sched C :
  (∀ t, t ∈ sched →
        0 <= index t ∧ ∃ v, value t = Some v ∧ C !! Z.to_nat (index t) = Some v) →
  run sched C = Some C.
Proof.
  induction sched as [|t sched IH]; intros H; [done|].
  rewrite launch_cons. destruct (H t) as (Hi & v & Hv & Hl); [by left|].
  unfold thread_store. rewrite Hv. cbn [mbind option_bind].
  unfold global_store. pose proof (lookup_lt_Some _ _ _ Hl). bounds_hold.
  cbn [andb mbind option_bind]. rewrite list_insert_id by done.
  cbn [mbind option_bind]. apply IH. intros t' Ht'. apply H. by right.
Qed.

End KernelFacts.

(** X1: a thread with [threadIdx] inside the tile, in a block at least as
    large as the tile, ends with the sum of the products
    [A[(by*blockDim.y + k)*wA + m*BLOCK_SIZE + tx] *
     B[(m*BLOCK_SIZE + ty)*wA + bx*blockDim.x + k]], added to zero one after
    the other with the tile index [m] ascending and [k] ascending within
    each tile; the thread is undefined as soon as one of these loads is
    outside its buffer. *)
Theorem thread_accumulates_tile_by_tile {val : Type} (vzero : val)
    (vadd vmul : val → val → val) BLOCK_SIZE blockDim (A B : list val) wA t :
  BLOCK_SIZE <= dim_x blockDim → BLOCK_SIZE <= dim_y blockDim →
  0 <= threadIdx_x t < BLOCK_SIZE → 0 <= threadIdx_y t < BLOCK_SIZE →
  thread_result vzero vadd vmul BLOCK_SIZE blockDim A B wA t =
    foldl (accumulate vadd vmul BLOCK_SIZE blockDim A B wA t) (Some vzero)
          (accumulation_order BLOCK_SIZE wA).
Proof. intros. by apply thread_result_in_order. Qed.

Lemma thread_accumulates_witness :
  thread_result 0 Z.add Z.mul 2 (Dim3 2 2 1) [1; 2; 3; 4] [5; 6; 7; 8] 2 (Thread 0 0 1 0) =
    foldl (accumulate Z.add Z.mul 2 (Dim3 2 2 1) [1; 2; 3; 4] [5; 6; 7; 8] 2
             (Thread 0 0 1 0)) (Some 0)
          (accumulation_order 2 2).
Proof.
  apply (thread_accumulates_tile_by_tile 0 Z.add Z.mul 2 (Dim3 2 2 1)
           [1; 2; 3; 4] [5; 6; 7; 8] 2 (Thread 0 0 1 0)); simpl; lia.
Defined.

(** X2: the kernel keeps the length of [C] and writes nowhere but at the
    indices [row*wA + col] of the threads it runs: every other element of
    [C] is after the launch what it was before. *)
Theorem MatrixMulCUDA_writes_only_its_indices {val : Type} (vzero : val)
    (vadd vmul : val → val → val) BLOCK_SIZE blockDim sched (C A B : list val)
    wA wB C' :
  MatrixMulCUDA vzero vadd vmul BLOCK_SIZE blockDim sched C A B wA wB = Some C' →
  length C' = length C ∧
  ∀ i : nat, Z.of_nat i ∉ C_index blockDim wA <$> sched → C' !! i = C !! i.
Proof. apply launch_frame. Qed.

Lemma MatrixMulCUDA_frame_witness :
  length [23; 34; 31; 46; -1; -1] = length [-1; -1; -1; -1; -1; -1] ∧
  ∀ i : nat,
    Z.of_nat i ∉ C_index (Dim3 2 2 1) 2 <$> grid_threads (Dim3 1 1 1) (Dim3 2 2 1) →
    [23; 34; 31; 46; -1; -1] !! i = [-1; -1; -1; -1; -1; -1] !! i.
Proof.
  apply (MatrixMulCUDA_writes_only_its_indices 0 Z.add Z.mul 2 (Dim3 2 2 1)
           (grid_threads (Dim3 1 1 1) (Dim3 2 2 1)) [-1; -1; -1; -1; -1; -1]
           [1; 2; 3; 4] [5; 6; 7; 8] 2 2).
  reflexivity.
Defined.

(** X3: when the columns of the grid fit in the row stride [wA], a launch
    that is defined leaves, under every schedule, the sum of each thread at
    that thread's index [row*wA + col]. *)
Theorem narrow_grid_delivers_every_sum {val : Type} (vzero : val)
    (vadd vmul : val → val → val) BLOCK_SIZE gridDim blockDim sched
    (C A B : list val) wA wB C' t :
  dim_x gridDim * dim_x blockDim <= wA →
  sched ≡ₚ grid_threads gridDim blockDim →
  MatrixMulCUDA vzero vadd vmul BLOCK_SIZE blockDim sched C A B wA wB = Some C' →
  t ∈ grid_threads gridDim blockDim →
  0 <= C_index blockDim wA t ∧
  C' !! Z.to_nat (C_index blockDim wA t) =
    thread_result vzero vadd vmul BLOCK_SIZE blockDim A B wA t ∧
  is_Some (thread_result vzero vadd vmul BLOCK_SIZE blockDim A B wA t).
Proof.
  intros Hfit Hs H Ht.
  destruct (launch_delivers vzero vadd vmul BLOCK_SIZE blockDim A B wA sched C C' t)
    as (Hi & v & Hv & Hl); [|done|by rewrite Hs|].
  - rewrite Hs. apply NoDup_fmap_2_strong; [|apply NoDup_grid_threads].
    intros t1 t2 H1 H2. by apply C_index_injective with gridDim.
  - rewrite Hv. by eauto.
Qed.

Lemma narrow_grid_witness :
  0 <= C_index (Dim3 2 2 1) 2 (Thread 0 0 1 0) ∧
  [23; 34; 31; 46] !! Z.to_nat (C_index (Dim3 2 2 1) 2 (Thread 0 0 1 0)) =
    thread_result 0 Z.add Z.mul 2 (Dim3 2 2 1) [1; 2; 3; 4] [5; 6; 7; 8] 2
      (Thread 0 0 1 0) ∧
  is_Some (thread_result 0 Z.add Z.mul 2 (Dim3 2 2 1) [1; 2; 3; 4] [5; 6; 7; 8] 2
             (Thread 0 0 1 0)).
Proof.
  apply (narrow_grid_delivers_every_sum 0 Z.add Z.mul 2 (Dim3 1 1 1) (Dim3 2 2 1)
           (reverse (grid_threads (Dim3 1 1 1) (Dim3 2 2 1)))
           [0; 0; 0; 0] [1; 2; 3; 4] [5; 6; 7; 8] 2 2).
  - simpl. lia.
  - apply reverse_Permutation.
  - reflexivity.
  - vm_compute. right. left.
Defined.

(** X4: where the columns of the grid fit in the row stride [wA], the
    kernel has no race on [C]: any two schedules of the grid leave the same
    [C], and launching again over the result of a launch, under any
    schedule, changes nothing (the kernel never reads [C]). *)
Theorem narrow_grid_launches_agree {val : Type} (vzero : val)
    (vadd vmul : val → val → val) BLOCK_SIZE gridDim blockDim sched sched'
    (C A B : list val) wA wB :
  dim_x gridDim * dim_x blockDim <= wA →
  sched ≡ₚ grid_threads gridDim blockDim →
  sched' ≡ₚ grid_threads gridDim blockDim →
  MatrixMulCUDA vzero vadd vmul BLOCK_SIZE blockDim sched C A B wA wB =
    MatrixMulCUDA vzero vadd vmul BLOCK_SIZE blockDim sched' C A B wA wB ∧
  ∀ C', MatrixMulCUDA vzero vadd vmul BLOCK_SIZE blockDim sched C A B wA wB = Some C' →
        MatrixMulCUDA vzero vadd vmul BLOCK_SIZE blockDim sched' C' A B wA wB = Some C'.
Proof.
  intros Hfit Hs Hs'. split; [by apply narrow_grid_is_deterministic with gridDim|].
  intros C' H. unfold MatrixMulCUDA in *. apply launch_fixpoint. intros t Ht.
  apply (launch_delivers vzero vadd vmul BLOCK_SIZE blockDim A B wA sched C C' t);
    [|done|by rewrite Hs, <- Hs'].
  rewrite Hs. apply NoDup_fmap_2_strong; [|apply NoDup_grid_threads].
  intros t1 t2 H1 H2. by apply C_index_injective with gridDim.
Qed.

Lemma narrow_grid_launches_agree_witness :
  let g := grid_threads (Dim3 1 1 1) (Dim3 2 2 1) in
  MatrixMulCUDA 0 Z.add Z.mul 2 (Dim3 2 2 1) g [0; 0; 0; 0] [1; 2; 3; 4] [5; 6; 7; 8] 2 2 =
    MatrixMulCUDA 0 Z.add Z.mul 2 (Dim3 2 2 1) (reverse g) [0; 0; 0; 0]
      [1; 2; 3; 4] [5; 6; 7; 8] 2 2 ∧
  ∀ C', MatrixMulCUDA 0 Z.add Z.mul 2 (Dim3 2 2 1) g [0; 0; 0; 0]
          [1; 2; 3; 4] [5; 6; 7; 8] 2 2 = Some C' →
        MatrixMulCUDA 0 Z.add Z.mul 2 (Dim3 2 2 1) (reverse g) C'
          [1; 2; 3; 4] [5; 6; 7; 8] 2 2 = Some C'.
Proof.
  apply (narrow_grid_launches_agree 0 Z.add Z.mul 2 (Dim3 1 1 1) (Dim3 2 2 1)).
  - simpl. lia.
  - reflexivity.
  - apply reverse_Permutation.
Defined.

(** X5: with A filled with [a], B square and filled with [b], all sizes
    multiples of the tile edge and the full grid launched, the kernel
    leaves in every element of [C] the sum of [wA] copies of [a * b] added
    one after the other to zero, whatever [C] held and however the threads
    are scheduled. *)
Theorem constant_matrices_give_uniform_C {val : Type} (vzero : val)
    (vadd vmul : val → val → val) BS tiles rows (a b : val) sched (C : list val) :
  0 < BS → 0 <= tiles → 0 <= rows →
  sched ≡ₚ grid_threads (Dim3 tiles rows 1) (Dim3 BS BS 1) →
  length C = Z.to_nat (tiles * BS * (rows * BS)) →
  MatrixMulCUDA vzero vadd vmul BS (Dim3 BS BS 1) sched C
    (replicate (Z.to_nat (tiles * BS * (rows * BS))) a)
    (replicate (Z.to_nat (tiles * BS * (tiles * BS))) b)
    (tiles * BS) (tiles * BS) =
  Some (replicate (Z.to_nat (tiles * BS * (rows * BS)))
          (repeated_sum vzero vadd (vmul a b) (Z.to_nat (tiles * BS)))).
Proof. intros. by apply launch_over_constant_matrices. Qed.

Lemma constant_matrices_witness :
  MatrixMulCUDA 0 Z.add Z.mul 2 (Dim3 2 2 1)
    (reverse (grid_threads (Dim3 2 1 1) (Dim3 2 2 1))) (replicate 8 (-1))
    (replicate (Z.to_nat (2 * 2 * (1 * 2))) 3)
    (replicate (Z.to_nat (2 * 2 * (2 * 2))) 5) (2 * 2) (2 * 2) =
  Some (replicate (Z.to_nat (2 * 2 * (1 * 2)))
          (repeated_sum 0 Z.add (3 * 5) (Z.to_nat (2 * 2)))).
Proof.
  apply (constant_matrices_give_uniform_C 0 Z.add Z.mul 2 2 1 3 5
           (reverse (grid_threads (Dim3 2 1 1) (Dim3 2 2 1))) (replicate 8 (-1)));
    [lia|lia|lia|apply reverse_Permutation|reflexivity].
Defined.

Lemma bind_one {X Y} (f : X → list Y) (x : X) : [x] ≫= f = f x.
Proof. cbn. apply app_nil_r. Qed.

Lemma bind_singleton_fmap {X Y} (f : X → Y) (l : list X) :
  l ≫= (λ x, [f x]) = f <$> l.
Proof. induction l as [|x l IH]; [done|]. by rewrite bind_cons, IH. Qed.

(** X6: one block over one tile ([wA = BLOCK_SIZE], matrices of
    [BLOCK_SIZE] x [BLOCK_SIZE]): the thread with [threadIdx = (tx, ty)]
    ends with the dot product of row [ty] of B and column [tx] of A, each
    product taken as [A-element * B-element], and stores it at
    [C[ty*BLOCK_SIZE + tx]]: the launch computes B times A. *)
Theorem single_tile_block_multiplies_B_by_A {val : Type} (vzero : val)
    (vadd vmul : val → val → val) BS (A B : list val) t :
  0 < BS →
  t ∈ grid_threads (Dim3 1 1 1) (Dim3 BS BS 1) →
  thread_result vzero vadd vmul BS (Dim3 BS BS 1) A B BS t =
    spec_dot_product vzero vadd (flip vmul) B A BS BS (threadIdx_y t) (threadIdx_x t) ∧
  C_index (Dim3 BS BS 1) BS t = threadIdx_y t * BS + threadIdx_x t.
Proof.
  intros HBS Ht. apply elem_of_grid_threads in Ht as (Hbx & Hby & Htx & Hty).
  cbn [dim_x dim_y] in *.
  assert (blockIdx_x t = 0) as Ebx by lia. assert (blockIdx_y t = 0) as Eby by lia.
  split; [|unfold C_index, row, col; cbn [dim_x dim_y]; rewrite Ebx, Eby; lia].
  rewrite thread_result_in_order by (cbn [dim_x dim_y]; lia).
  unfold accumulation_order, spec_dot_product. rewrite Z.quot_same by lia.
  change (zrange 1) with [0]. rewrite bind_one.
  rewrite bind_singleton_fmap.
  generalize (Some vzero). induction (zrange BS) as [|k l IH]; intros o; [done|].
  rewrite fmap_cons. cbn [foldl]. rewrite IH. f_equal.
  unfold accumulate, product_term. cbn [fst snd dim_x dim_y]. rewrite Ebx, Eby.
  replace ((0 * BS + k) * BS + 0 * BS + threadIdx_x t) with (k * BS + threadIdx_x t) by lia.
  replace ((0 * BS + threadIdx_y t) * BS + (0 * BS + k)) with (threadIdx_y t * BS + k) by lia.
  destruct o as [acc|]; [|done]. cbn [mbind option_bind].
  by destruct (global_load A _), (global_load B _).
Qed.

Lemma single_tile_block_witness :
  thread_result 0 Z.add Z.mul 2 (Dim3 2 2 1) [1; 2; 3; 4] [5; 6; 7; 8] 2 (Thread 0 0 1 0) =
    spec_dot_product 0 Z.add (flip Z.mul) [5; 6; 7; 8] [1; 2; 3; 4] 2 2
      (threadIdx_y (Thread 0 0 1 0)) (threadIdx_x (Thread 0 0 1 0)) ∧
  C_index (Dim3 2 2 1) 2 (Thread 0 0 1 0) =
    threadIdx_y (Thread 0 0 1 0) * 2 + threadIdx_x (Thread 0 0 1 0).
Proof.
  apply (single_tile_block_multiplies_B_by_A 0 Z.add Z.mul 2 [1; 2; 3; 4] [5; 6; 7; 8]
           (Thread 0 0 1 0)).
  - lia.
  - vm_compute. right. left.
Defined.

(** X7: the driver's grid has [wB / bs] columns of blocks, the quotient
    rounded down.  No thread of such a grid has a column at or past
    [(wB / bs) * bs], so the elements of [C] in these columns (with the row
    stride [wA] of the kernel) are after the launch what they were
    before. *)
Theorem columns_past_the_last_block_are_never_written {val : Type} (vzero : val)
    (vadd vmul : val → val → val) BLOCK_SIZE bs w h sched (C A B : list val)
    wA wB C' r c :
  0 < bs →
  (∀ t, t ∈ sched → t ∈ grid_threads (Dim3 (w / bs) (h / bs) 1) (Dim3 bs bs 1)) →
  MatrixMulCUDA vzero vadd vmul BLOCK_SIZE (Dim3 bs bs 1) sched C A B wA wB = Some C' →
  0 <= r → w / bs * bs <= c < wA →
  C' !! Z.to_nat (r * wA + c) = C !! Z.to_nat (r * wA + c).
Proof.
  intros Hbs Hs H Hr Hc.
  unfold MatrixMulCUDA in H. apply launch_frame in H as [_ Hf]. apply Hf.
  intros Hin. apply list_elem_of_fmap in Hin as (t & Heq & Ht).
  apply Hs, elem_of_grid_threads in Ht as (Hbx & _ & Htx & _).
  cbn [dim_x dim_y] in *. unfold C_index, row, col in Heq. cbn [dim_x dim_y] in Heq.
  pose proof (tile_coordinate_bound _ _ _ _ Hbx Htx).
  rewrite Z2Nat.id in Heq by nia.
  apply quotient_remainder_unique in Heq as [_ Heq]; lia.
Qed.

Lemma trailing_column_witness :
  [9; 12; -1; 24; 33; -1] !! Z.to_nat (0 * 3 + 2) =
    [-1; -1; -1; -1; -1; -1] !! Z.to_nat (0 * 3 + 2).
Proof.
  apply (columns_past_the_last_block_are_never_written 0 Z.add Z.mul 2 2 3 2
           (grid_threads (Dim3 1 1 1) (Dim3 2 2 1)) [-1; -1; -1; -1; -1; -1]
           [1; 2; 3; 4; 5; 6] [1; 2; 3; 4; 5; 6; 7; 8; 9] 3 3).
  - lia.
  - intros t Ht. exact Ht.
  - reflexivity.
  - lia.
  - change (2 <= 2 < 3). lia.
Defined.

Section SquareB.
Context {val : Type}.
Variable vzero : val.
Variables vadd vmul : val → val → val.

(** Tile edge, number of tiles along the width of A, number of rows of
    blocks.  A is [hA] x [wA]; B is [wA] x [wA]; C is [hA] x [wA]. *)
Variables BS tiles rows : Z.
Hypothesis BS_pos : 0 < BS.
Variables A B : list val.

Local Abbreviation wA := (tiles * BS).
Local Abbreviation hA := (rows * BS).
Local Abbreviation blockDim := (Dim3 BS BS 1).
Local Abbreviation gridDim := (Dim3 tiles rows 1).

Hypothesis A_size : length A = Z.to_nat (wA * hA).
Hypothesis B_size : length B = Z.to_nat (wA * wA).

Lemma global_load_in_range (buf : list val) (i : Z) :
  0 <= i < Z.of_nat (length buf) → is_Some (global_load buf i).
Proof.
  intros Hi. unfold global_load. bounds_hold.
  destruct (i <? 0) eqn:E; [apply Z.ltb_lt in E; lia|].
  apply lookup_lt_is_Some_2. lia.
Qed.

Lemma product_term_defined t mk :
  t ∈ grid_threads gridDim blockDim →
  mk ∈ accumulation_order BS wA →
  is_Some (product_term vmul BS blockDim A B wA t mk).
Proof.
  intros Ht Hmk. apply elem_of_grid_threads in Ht as (Hbx & Hby & Htx & Hty).
  unfold accumulation_order in Hmk. rewrite Z.quot_mul in Hmk by lia.
  apply list_elem_of_bind in Hmk as (m & Hmk & Hm).
  apply list_elem_of_bind in Hmk as (k & Hmk & Hk).
  apply list_elem_of_singleton in Hmk as ->.
  apply elem_of_zrange in Hm, Hk. cbn [dim_x dim_y] in *.
  unfold product_term. cbn [fst snd dim_x dim_y].
  pose proof (tile_coordinate_bound _ _ _ _ Hby Hk).
  pose proof (tile_coordinate_bound _ _ _ _ Hm Htx).
  pose proof (tile_coordinate_bound _ _ _ _ Hm Hty).
  pose proof (tile_coordinate_bound _ _ _ _ Hbx Hk).
  destruct (global_load_in_range A ((blockIdx_y t * BS + k) * wA + m * BS + threadIdx_x t))
    as [a ->].
  { rewrite A_size, Z2Nat.id by nia. rewrite <- Z.add_assoc. by apply flat_index_bound. }
  destruct (global_load_in_range B ((m * BS + threadIdx_y t) * wA + (blockIdx_x t * BS + k)))
    as [b ->].
  { rewrite B_size, Z2Nat.id by nia. by apply flat_index_bound. }
  by eexists.
Qed.

Lemma accumulate_defined t l acc :
  (∀ mk, mk ∈ l → is_Some (product_term vmul BS blockDim A B wA t mk)) →
  is_Some (foldl (accumulate vadd vmul BS blockDim A B wA t) (Some acc) l).
Proof.
  revert acc. induction l as [|mk l IH]; intros acc Hl; [by eexists|].
  cbn [foldl]. unfold accumulate at 2. cbn [mbind option_bind].
  destruct (Hl mk) as [p ->]; [by left|]. cbn [mbind option_bind].
  apply IH. intros. apply Hl. by right.
Qed.

Lemma thread_result_defined t :
  t ∈ grid_threads gridDim blockDim →
  is_Some (thread_result vzero vadd vmul BS blockDim A B wA t).
Proof.
  intros Ht. pose proof Ht as Hin.
  apply elem_of_grid_threads in Hin as (_ & _ & Htx & Hty).
  rewrite thread_result_in_order by (cbn [dim_x dim_y] in *; lia).
  apply accumulate_defined. intros. by apply product_term_defined.
Qed.

Lemma launch_defined sched C :
  (∀ t, t ∈ sched → t ∈ grid_threads gridDim blockDim) →
  length C = Z.to_nat (wA * hA) →
  is_Some (launch vzero vadd vmul BS blockDim A B wA sched C).
Proof.
  revert C. induction sched as [|t sched IH]; intros C Hs Hlen; [by eexists|].
  rewrite launch_cons. unfold thread_store.
  destruct (thread_result_defined t) as [v ->]; [apply Hs; by left|].
  cbn [mbind option_bind]. unfold global_store.
  assert (Hi : 0 <= C_index blockDim wA t < wA * hA)
    by (apply C_index_in_range, Hs; by left).
  rewrite Hlen, Z2Nat.id by nia. bounds_hold. cbn [andb mbind option_bind].
  apply IH; [|by rewrite length_insert]. intros. apply Hs. by right.
Qed.

End SquareB.

(** X8: with B square, all sizes multiples of the tile edge and buffers of
    the sizes the driver allocates, every load and store of every thread of
    the grid is inside its buffer: the launch is defined for all contents
    of A, B and C and every schedule. *)
Theorem launch_with_square_B_stays_in_bounds {val : Type} (vzero : val)
    (vadd vmul : val → val → val) BS tiles rows sched (C A B : list val) :
  0 < BS →
  length A = Z.to_nat (tiles * BS * (rows * BS)) →
  length B = Z.to_nat (tiles * BS * (tiles * BS)) →
  length C = Z.to_nat (tiles * BS * (rows * BS)) →
  (∀ t, t ∈ sched → t ∈ grid_threads (Dim3 tiles rows 1) (Dim3 BS BS 1)) →
  is_Some (MatrixMulCUDA vzero vadd vmul BS (Dim3 BS BS 1) sched C A B
             (tiles * BS) (tiles * BS)).
Proof. intros. by apply (launch_defined _ _ _ BS tiles rows). Qed.

Lemma square_B_in_bounds_witness :
  is_Some (MatrixMulCUDA 0 Z.add Z.mul 2 (Dim3 2 2 1)
             (grid_threads (Dim3 1 2 1) (Dim3 2 2 1)) [0; 0; 0; 0; 0; 0; 0; 0]
             [1; 2; 3; 4; 5; 6; 7; 8] [5; 6; 7; 8] (1 * 2) (1 * 2)).
Proof.
  apply (launch_with_square_B_stays_in_bounds 0 Z.add Z.mul 2 1 2
           (grid_threads (Dim3 1 2 1) (Dim3 2 2 1)) [0; 0; 0; 0; 0; 0; 0; 0]
           [1; 2; 3; 4; 5; 6; 7; 8] [5; 6; 7; 8]);
    [lia|reflexivity|reflexivity|reflexivity|].
  intros t Ht. exact Ht.
Defined.

Section SmallBlocks.
Context {val : Type}.
Variable vzero : val.
Variables vadd vmul : val → val → val.
Variable BLOCK_SIZE : Z.
Variable blockDim : dim3.
Variables A B : list val.
Variable wA : Z.
Variable t : thread.



End SmallBlocks.



Section PartialTile.
Context {val : Type}.
Variable vzero : val.
Variables vadd vmul : val → val → val.
Variable BLOCK_SIZE : Z.
Variable blockDim : dim3.
Variable wA : Z.
Variable t : thread.

Lemma accumulate_ext (A B A' B' : list val) l o :
  (∀ mk, mk ∈ l → product_term vmul BLOCK_SIZE blockDim A B wA t mk =
                  product_term vmul BLOCK_SIZE blockDim A' B' wA t mk) →
  foldl (accumulate vadd vmul BLOCK_SIZE blockDim A B wA t) o l =
  foldl (accumulate vadd vmul BLOCK_SIZE blockDim A' B' wA t) o l.
Proof.
  revert o. induction l as [|mk l IH]; intros o Hl; [done|].
  cbn [foldl]. rewrite IH by (intros; apply Hl; by right). f_equal.
  unfold accumulate. by rewrite (Hl mk) by (by left).
Qed.

Lemma global_load_insert_ne (buf : list val) (i : nat) (j : Z) (x : val) :
  j ≠ Z.of_nat i → global_load (<[i := x]> buf) j = global_load buf j.
Proof.
  intros Hne. unfold global_load. destruct (j <? 0) eqn:E; [done|].
  apply Z.ltb_ge in E. apply list_lookup_insert_ne. lia.
Qed.

Lemma elem_of_accumulation_order mk :
  0 < BLOCK_SIZE → mk ∈ accumulation_order BLOCK_SIZE wA →
  0 <= mk.1 < wA ÷ BLOCK_SIZE ∧ 0 <= mk.2 < BLOCK_SIZE.
Proof.
  intros HBS Hmk. unfold accumulation_order in Hmk.
  apply list_elem_of_bind in Hmk as (m & Hmk & Hm).
  apply list_elem_of_bind in Hmk as (k & Hmk & Hk).
  apply list_elem_of_singleton in Hmk as ->.
  by apply elem_of_zrange in Hm, Hk.
Qed.

End PartialTile.

(** X23: the tiling loop runs [wA / BLOCK_SIZE] times, the quotient rounded
    down.  When [wA] is not a multiple of the tile edge, the columns of A
    from [(wA / BLOCK_SIZE) * BLOCK_SIZE] on are never read: changing an
    element there changes no thread's sum. *)
Theorem trailing_columns_of_A_are_never_read {val : Type} (vzero : val)
    (vadd vmul : val → val → val) BLOCK_SIZE blockDim (A B : list val) wA t
    (i : nat) (r c : Z) (x : val) :
  0 < BLOCK_SIZE →
  BLOCK_SIZE <= dim_x blockDim → BLOCK_SIZE <= dim_y blockDim →
  0 <= threadIdx_x t < BLOCK_SIZE → 0 <= threadIdx_y t < BLOCK_SIZE →
  Z.of_nat i = r * wA + c → wA ÷ BLOCK_SIZE * BLOCK_SIZE <= c < wA →
  thread_result vzero vadd vmul BLOCK_SIZE blockDim (<[i := x]> A) B wA t =
  thread_result vzero vadd vmul BLOCK_SIZE blockDim A B wA t.
Proof.
  intros HBS Hbx Hby Htx Hty Hi Hc. rewrite !thread_result_in_order by done.
  apply accumulate_ext. intros [m k] Hmk.
  apply elem_of_accumulation_order in Hmk as [Hm Hk]; [|done]. cbn [fst snd] in *.
  unfold product_term. cbn [fst snd]. rewrite global_load_insert_ne; [done|].
  rewrite Hi, <- Z.add_assoc. intros Heq.
  pose proof (tile_coordinate_bound _ _ _ _ Hm Htx).
  apply quotient_remainder_unique in Heq as [_ Heq]; lia.
Qed.

Lemma trailing_columns_of_A_witness :
  thread_result 0 Z.add Z.mul 2 (Dim3 2 2 1) (<[5%nat := 99]> [1; 2; 3; 4; 5; 6])
    [1; 2; 3; 4; 5; 6; 7; 8; 9] 3 (Thread 0 0 1 1) =
  thread_result 0 Z.add Z.mul 2 (Dim3 2 2 1) [1; 2; 3; 4; 5; 6]
    [1; 2; 3; 4; 5; 6; 7; 8; 9] 3 (Thread 0 0 1 1).
Proof.
  apply (trailing_columns_of_A_are_never_read 0 Z.add Z.mul 2 (Dim3 2 2 1)
           [1; 2; 3; 4; 5; 6] [1; 2; 3; 4; 5; 6; 7; 8; 9] 3 (Thread 0 0 1 1) 5 1 2 99);
    vm_compute; repeat split; (reflexivity || discriminate).
Defined.

(** X24: likewise the rows of B from [(wA / BLOCK_SIZE) * BLOCK_SIZE] on
    (B is read with the row stride [wA]) are never read by a thread whose
    block lies within the first [wA] columns. *)
Theorem trailing_rows_of_B_are_never_read {val : Type} (vzero : val)
    (vadd vmul : val → val → val) BLOCK_SIZE blockDim (A B : list val) wA t
    (i : nat) (r c : Z) (x : val) :
  0 < BLOCK_SIZE →
  BLOCK_SIZE <= dim_x blockDim → BLOCK_SIZE <= dim_y blockDim →
  0 <= threadIdx_x t < BLOCK_SIZE → 0 <= threadIdx_y t < BLOCK_SIZE →
  0 <= blockIdx_x t * dim_x blockDim →
  blockIdx_x t * dim_x blockDim + BLOCK_SIZE <= wA →
  Z.of_nat i = r * wA + c → 0 <= c < wA → wA ÷ BLOCK_SIZE * BLOCK_SIZE <= r →
  thread_result vzero vadd vmul BLOCK_SIZE blockDim A (<[i := x]> B) wA t =
  thread_result vzero vadd vmul BLOCK_SIZE blockDim A B wA t.
Proof.
  intros HBS Hbx Hby Htx Hty Hx0 Hx1 Hi Hc Hrow.
  rewrite !thread_result_in_order by done.
  apply accumulate_ext. intros [m k] Hmk.
  apply elem_of_accumulation_order in Hmk as [Hm Hk]; [|done]. cbn [fst snd] in *.
  unfold product_term. cbn [fst snd]. rewrite (global_load_insert_ne B); [done|].
  rewrite Hi. intros Heq.
  pose proof (tile_coordinate_bound _ _ _ _ Hm Hty).
  apply quotient_remainder_unique in Heq as [Heq _]; lia.
Qed.

Lemma trailing_rows_of_B_witness :
  thread_result 0 Z.add Z.mul 2 (Dim3 2 2 1) [1; 2; 3; 4; 5; 6]
    (<[7%nat := 99]> [1; 2; 3; 4; 5; 6; 7; 8; 9]) 3 (Thread 0 0 1 1) =
  thread_result 0 Z.add Z.mul 2 (Dim3 2 2 1) [1; 2; 3; 4; 5; 6]
    [1; 2; 3; 4; 5; 6; 7; 8; 9] 3 (Thread 0 0 1 1).
Proof.
  apply (trailing_rows_of_B_are_never_read 0 Z.add Z.mul 2 (Dim3 2 2 1)
           [1; 2; 3; 4; 5; 6] [1; 2; 3; 4; 5; 6; 7; 8; 9] 3 (Thread 0 0 1 1) 7 2 1 99);
    vm_compute; repeat split; (reflexivity || discriminate).
Defined.

(** * Further properties of the host code *)

(** ** [ConstantInit] *)

Lemma ConstantInit_loop_overrun n i data val :
  0 <= i → (Z.to_nat i <= length data < Z.to_nat i + n)%nat →
  ConstantInit_loop n i data val = None.
Proof.
  revert i data. induction n as [|n IH]; intros i data Hi Hlen; [lia|].
  cbn [ConstantInit_loop]. unfold global_store.
  destruct (i <? Z.of_nat (length data)) eqn:E.
  - apply Z.ltb_lt in E. bounds_hold. cbn [andb mbind option_bind].
    apply IH; [lia|]. rewrite length_insert. lia.
  - by rewrite andb_false_r.
Qed.

(** X10: on a buffer of at least [size] elements, [ConstantInit] sets the
    first [size] elements to [val] and leaves the others and the rest of
    the process as they were; with [size <= 0] it changes nothing. *)
Theorem ConstantInit_fills_the_front p size val w data :
  host w p = Some data → (Z.to_nat size <= length data)%nat →
  ConstantInit p size val w =
    (Done (), set_host p (Some (replicate (Z.to_nat size) val
                                  ++ drop (Z.to_nat size) data)) w).
Proof.
  intros Hp Hlen. unfold ConstantInit. rewrite Hp.
  rewrite ConstantInit_loop_spec by (cbn; lia). by cbn.
Qed.

Lemma ConstantInit_fills_witness :
  ConstantInit h_A 2 valB (holding h_A [F32.zero; F32.one; F32.one]) =
    (Done (), set_host h_A (Some (replicate (Z.to_nat 2) valB
                                    ++ drop (Z.to_nat 2) [F32.zero; F32.one; F32.one]))
                (holding h_A [F32.zero; F32.one; F32.one])).
Proof.
  apply (ConstantInit_fills_the_front h_A 2 valB (holding h_A [F32.zero; F32.one; F32.one])
           [F32.zero; F32.one; F32.one]).
  - reflexivity.
  - simpl. lia.
Defined.

Lemma ConstantInit_overrun_fault p size val w :
  Z.of_nat (length (default [] (host w p))) < size →
  ConstantInit p size val w = (Fault, w).
Proof.
  intros Hlen. unfold ConstantInit. destruct (host w p) as [data|]; cbn in Hlen.
  - rewrite ConstantInit_loop_overrun; [done|lia|]. cbn. lia.
  - by rewrite (proj2 (Z.ltb_lt 0 size)) by lia.
Qed.

(** X11: [ConstantInit] does not look at its pointer or at the size of the
    buffer behind it: asked for more elements than the buffer has (none,
    for a [NULL] pointer) it stores outside the buffer. *)
Theorem ConstantInit_past_the_buffer_faults p size val w :
  Z.of_nat (length (default [] (host w p))) < size →
  ConstantInit p size val w = (Fault, w).
Proof. apply ConstantInit_overrun_fault. Qed.

Lemma ConstantInit_faults_witness :
  ConstantInit h_A 4 valB (holding h_A [F32.zero; F32.one; F32.one]) =
    (Fault, holding h_A [F32.zero; F32.one; F32.one]).
Proof.
  apply (ConstantInit_past_the_buffer_faults h_A 4 valB
           (holding h_A [F32.zero; F32.one; F32.one])).
  simpl. lia.
Defined.

(** ** How [MatrixMultiply] and [main] end *)

Lemma exits_with_bind {A B} P (c : prog A) (k : A → prog B) :
  exits_with P c → (∀ a, exits_with P (k a)) → exits_with P (c ≫= k).
Proof.
  intros Hc Hk w code w' H. unfold mbind, prog_bind in H.
  destruct (c w) as [[a|code'|] w1] eqn:E.
  - by eapply Hk.
  - apply (Hc w code' w1) in E. congruence.
  - discriminate H.
Qed.

Lemma exits_with_no_exit {A} P (c : prog A) :
  (∀ w, match (c w).1 with Exit _ => False | _ => True end) → exits_with P c.
Proof. intros H w code w' E. specialize (H w). by rewrite E in H. Qed.

Lemma exits_with_if {A} P (b : bool) (c1 c2 : prog A) :
  exits_with P c1 → exits_with P c2 → exits_with P (if b then c1 else c2).
Proof. by destruct b. Qed.

Lemma reported_failure_after m w :
  is_failure_message m → reported_failure EXIT_FAILURE (log (Print m) w).
Proof. intros Hm. split; [done|]. exists m. cbn. by rewrite last_snoc. Qed.

Section Exits.
Variable env : environment.
Variable P : Z → world → Prop.
Hypothesis P_alloc : ∀ w, P EXIT_FAILURE (log (Print MsgAllocCFailed) w).
Hypothesis P_cuda :
  ∀ c w, cuda_ok env c = false → P EXIT_FAILURE (log (Print (MsgCudaError c)) w).

Lemma exits_with_ret {A} (a : A) : exits_with P (mret a : prog A).
Proof. by apply exits_with_no_exit. Qed.

Lemma exits_with_fault {A} : exits_with P (fault : prog A).
Proof. by apply exits_with_no_exit. Qed.

Lemma exits_with_emit e : exits_with P (emit e).
Proof. by apply exits_with_no_exit. Qed.

Lemma exits_with_printf m : exits_with P (printf m).
Proof. by apply exits_with_no_exit. Qed.

(** [fprintf(stderr, ...); exit(EXIT_FAILURE);] *)
Lemma exits_with_report {A} m :
  (∀ w, P EXIT_FAILURE (log (Print m) w)) →
  exits_with P (printf m ;; exit EXIT_FAILURE : prog A).
Proof.
  intros Hm w code w' E. apply (inj2 pair) in E as [E <-].
  injection E as <-. apply Hm.
Qed.

Lemma exits_with_malloc p bytes : exits_with P (malloc env p bytes).
Proof.
  apply exits_with_no_exit. intros w. unfold malloc. by destruct (malloc_ok env p).
Qed.

Lemma exits_with_free p : exits_with P (free p).
Proof. by apply exits_with_no_exit. Qed.

Lemma exits_with_is_NULL p : exits_with P (is_NULL p).
Proof. by apply exits_with_no_exit. Qed.

Lemma exits_with_ConstantInit p size val : exits_with P (ConstantInit p size val).
Proof.
  apply exits_with_no_exit. intros w. unfold ConstantInit.
  destruct (host w p); [destruct (ConstantInit_loop _ _ _ _)|destruct (0 <? size)]; done.
Qed.

Lemma exits_with_checkCudaErrors c : exits_with P (checkCudaErrors env c).
Proof.
  intros w code w' E. unfold checkCudaErrors in E. destruct (cuda_ok env c) eqn:Ec.
  - by destruct (cuda_effect _ _ _).
  - revert E. apply (exits_with_report (MsgCudaError c)). intros w0. by apply P_cuda.
Qed.

Lemma exits_with_launch_kernel BS grid threads wA wB :
  exits_with P (launch_kernel env BS grid threads wA wB).
Proof.
  apply exits_with_no_exit. intros w. unfold launch_kernel.
  destruct (device w d_C), (device w d_A), (device w d_B); try done.
  by destruct (MatrixMulCUDA_float _ _ _ _ _ _ _ _).
Qed.

Lemma exits_with_launch_for bs grid threads dimsA dimsB :
  exits_with P (launch_for env bs grid threads dimsA dimsB).
Proof. unfold launch_for. destruct (bs =? 16); apply exits_with_launch_kernel. Qed.

Lemma exits_with_timed_loop n bs grid threads dimsA dimsB :
  exits_with P (timed_loop env n bs grid threads dimsA dimsB).
Proof.
  induction n as [|n IH]; cbn [timed_loop].
  - apply exits_with_ret.
  - apply exits_with_bind; [apply exits_with_launch_for|]. by intros _.
Qed.

Lemma exits_with_check_loop n i dimsA correct :
  exits_with P (check_loop n i dimsA correct).
Proof.
  revert i correct. induction n as [|n IH]; intros i correct; cbn [check_loop].
  - apply exits_with_ret.
  - intros w code w' E. destruct (host w h_C ≫= _) as [c|]; [|discriminate E].
    destruct (out_of_tolerance c dimsA); [|by eapply IH].
    revert E. apply (exits_with_bind P (printf _)); [apply exits_with_printf|].
    intros _. apply IH.
Qed.

End Exits.

(** Discharges [exits_with P c] for a piece [c] of the driver, given the
    facts about [P] the exits of [c] need. *)
Ltac exits_with_driver :=
  repeat first
    [ lazymatch goal with
      | |- exits_with _ (printf _ ≫= λ _, exit _) =>
          apply exits_with_report; solve [eauto]
      end
    | apply exits_with_bind; [|intros ?]
    | apply exits_with_printf | apply exits_with_malloc | apply exits_with_free
    | apply exits_with_is_NULL | apply exits_with_ConstantInit
    | apply exits_with_checkCudaErrors; solve [eauto]
    | apply exits_with_check_loop
    | apply exits_with_launch_for
    | apply exits_with_timed_loop
    | apply exits_with_emit
    | apply exits_with_if | apply exits_with_ret | apply exits_with_fault ].

Lemma exits_with_MatrixMultiply env P bs dimsA dimsB :
  (∀ w, P EXIT_FAILURE (log (Print MsgAllocCFailed) w)) →
  (∀ c w, cuda_ok env c = false → P EXIT_FAILURE (log (Print (MsgCudaError c)) w)) →
  exits_with P (MatrixMultiply env bs dimsA dimsB).
Proof.
  intros P_alloc P_cuda. unfold MatrixMultiply. cbv zeta. cbn [dim_x dim_y].
  exits_with_driver.
Qed.

Lemma MatrixMultiply_reports_failure env bs dimsA dimsB :
  exits_with reported_failure (MatrixMultiply env bs dimsA dimsB).
Proof.
  apply exits_with_MatrixMultiply; intros; by apply reported_failure_after.
Qed.

(** X12: whatever fails, [MatrixMultiply] leaves through [exit] with no
    status other than [EXIT_FAILURE], and never silently: the last thing
    it did was to print that [h_C] could not be allocated or that a
    runtime call failed. *)
Theorem MatrixMultiply_exits_only_with_failure env block_size dimsA dimsB w code :
  (MatrixMultiply env block_size dimsA dimsB w).1 = Exit code →
  code = EXIT_FAILURE ∧
  ∃ m, last (trace (MatrixMultiply env block_size dimsA dimsB w).2) = Some (Print m) ∧
       is_failure_message m.
Proof.
  intros H. destruct (MatrixMultiply env block_size dimsA dimsB w) as [r w'] eqn:E.
  cbn in H. subst r. by apply MatrixMultiply_reports_failure in E.
Qed.

Lemma MatrixMultiply_exit_witness :
  EXIT_FAILURE = EXIT_FAILURE ∧
  ∃ m, last (trace (MatrixMultiply (out_of_memory_for h_C) 32 (square 32) (square 32)
                      initial_world).2) = Some (Print m) ∧
       is_failure_message m.
Proof.
  apply (MatrixMultiply_exits_only_with_failure (out_of_memory_for h_C) 32
           (square 32) (square 32) initial_world EXIT_FAILURE).
  vm_compute. reflexivity.
Defined.

(** X13: [main] ends with status 0 only after the help text, or after
    [MatrixMultiply] printed [Result = PASS]; the only other status it
    ends with is [EXIT_FAILURE]. *)
Theorem main_exit_status env cl w code :
  (main env cl w).1 = Exit code →
  (code = EXIT_SUCCESS ∧
   (flag_help cl = true ∨
    ∃ evs, trace (main env cl w).2 = trace w ++ evs ∧ Print (MsgResult true) ∈ evs)) ∨
  code = EXIT_FAILURE.
Proof.
  destruct (main env cl w) as [r w2] eqn:E. cbn [fst snd]. intros ->.
  unfold main, findCudaDevice in E. cbv zeta in E.
  unfold mbind at 1, prog_bind at 1 in E. cbn [printf emit] in E.
  unfold mbind at 1, prog_bind at 1 in E.
  destruct (flag_help cl).
  { cbn in E. injection E as <- _. left. by split; [|left]. }
  cbn [mret prog_ret] in E.
  unfold mbind at 1, prog_bind at 1 in E.
  destruct (device_found env); [|cbn in E; injection E as <- _; by right].
  cbn [emit] in E.
  unfold mbind at 1, prog_bind at 1 in E.
  destruct (_ =? _); [|cbn in E; injection E as <- _; by right].
  cbn [mret prog_ret] in E.
  unfold mbind at 1, prog_bind at 1 in E. cbn [printf emit] in E.
  unfold mbind at 1, prog_bind at 1 in E.
  destruct (MatrixMultiply _ _ _ _ _) as [[c|code'|] w'] eqn:EM; unfold exit in E.
  - apply MatrixMultiply_Done in EM as (hC & _ & Ht & ->).
    cbn [trace log] in Ht. apply (f_equal snd) in E as Ew. cbn [snd] in Ew. subst w2.
    apply (f_equal fst) in E. cbn [fst] in E.
    destruct (forallb _ _); injection E as <-; [left|by right].
    split; [done|right].
    eexists. rewrite Ht, <- !app_assoc. split; [reflexivity|].
    rewrite !elem_of_app, !elem_of_cons. tauto.
  - apply (f_equal fst) in E. cbn [fst] in E. injection E as <-. right.
    by apply MatrixMultiply_reports_failure in EM as [? _].
  - discriminate E.
Qed.

Lemma main_exit_status_witness :
  (EXIT_SUCCESS = EXIT_SUCCESS ∧
   (flag_help (Cmdline true None None None None) = true ∨
    ∃ evs, trace (main calm (Cmdline true None None None None) initial_world).2
             = trace initial_world ++ evs ∧ Print (MsgResult true) ∈ evs)) ∨
  EXIT_SUCCESS = EXIT_FAILURE.
Proof.
  apply (main_exit_status calm (Cmdline true None None None None) initial_world
           EXIT_SUCCESS).
  reflexivity.
Defined.

(** X14: asked for help, [main] prints the banner and the usage text and
    ends with status 0; it selects no device, reads no dimension and
    obtains no memory. *)
Theorem help_ends_the_run_at_once env cl w :
  flag_help cl = true →
  main env cl w = (Exit EXIT_SUCCESS, log (Print MsgUsage) (log (Print MsgStarting) w)).
Proof. intros H. unfold main. cbv zeta. by rewrite H. Qed.

Lemma help_witness :
  main calm (Cmdline true (Some 7) None None None) initial_world =
    (Exit EXIT_SUCCESS, log (Print MsgUsage) (log (Print MsgStarting) initial_world)).
Proof.
  apply (help_ends_the_run_at_once calm (Cmdline true (Some 7) None None None)
           initial_world).
  reflexivity.
Defined.

(** ** Sizes and allocation in [MatrixMultiply] *)

Lemma u32_wraps_once n : 2 ^ 32 <= n < 2 ^ 33 → u32 n = n - 2 ^ 32.
Proof.
  intros Hn. unfold u32. symmetry. apply (Z.mod_unique _ _ 1); lia.
Qed.

(** X15: a [NULL] [h_C] is the one allocation failure the driver looks for.
    With A and B allocated and small enough for their byte counts, it
    reports the failure and ends the process with [EXIT_FAILURE] before
    any call reaches the device. *)
Theorem null_h_C_ends_the_run env block_size dimsA dimsB w :
  malloc_ok env h_A = true → malloc_ok env h_B = true → malloc_ok env h_C = false →
  0 <= dim_x dimsA * dim_y dimsA < 2 ^ 30 →
  0 <= dim_x dimsB * dim_y dimsB < 2 ^ 30 →
  (MatrixMultiply env block_size dimsA dimsB w).1 = Exit EXIT_FAILURE ∧
  trace (MatrixMultiply env block_size dimsA dimsB w).2 =
    trace w ++ [ Malloc h_A (mem_size_A dimsA) true;
                 Malloc h_B (mem_size_B dimsB) true;
                 Malloc h_C (mem_size_C dimsA dimsB) false;
                 Print MsgAllocCFailed ].
Proof.
  intros HA HB HC HsA HsB.
  assert (HlenA : Z.to_nat (sizeof_float * (dim_x dimsA * dim_y dimsA) / sizeof_float)
                  = Z.to_nat (dim_x dimsA * dim_y dimsA)).
  { by rewrite Z.mul_comm, Z.div_mul. }
  assert (HlenB : Z.to_nat (sizeof_float * (dim_x dimsB * dim_y dimsB) / sizeof_float)
                  = Z.to_nat (dim_x dimsB * dim_y dimsB)).
  { by rewrite Z.mul_comm, Z.div_mul. }
  unfold MatrixMultiply, mem_size_A, mem_size_B, mem_size_C. cbv zeta. cbn [dim_x dim_y].
  rewrite !(u32_small (dim_x dimsA * dim_y dimsA)),
          !(u32_small (dim_x dimsB * dim_y dimsB)) by lia.
  rewrite !(u32_small (sizeof_float * _)) by (unfold sizeof_float; lia).
  rewrite !(to_int_small (dim_x dimsA * dim_y dimsA)),
          !(to_int_small (dim_x dimsB * dim_y dimsB)) by lia.
  erewrite bind_run_Done by (unfold malloc; rewrite HA; reflexivity).
  erewrite bind_run_Done by (unfold malloc; rewrite HB; reflexivity).
  erewrite bind_run_Done
    by (eapply ConstantInit_run; [reflexivity|by rewrite length_fresh]).
  erewrite bind_run_Done
    by (eapply ConstantInit_run; [reflexivity|by rewrite length_fresh]).
  erewrite bind_run_Done by (unfold malloc; rewrite HC; reflexivity).
  erewrite bind_run_Done by reflexivity.
  wsimpl. erewrite bind_run_Exit by reflexivity.
  split; [reflexivity|]. cbn. by rewrite <- !app_assoc.
Qed.

Lemma null_h_C_witness :
  (MatrixMultiply (out_of_memory_for h_C) 32 (square 64) (square 64) initial_world).1
    = Exit EXIT_FAILURE ∧
  trace (MatrixMultiply (out_of_memory_for h_C) 32 (square 64) (square 64)
           initial_world).2 =
    trace initial_world ++
      [ Malloc h_A (mem_size_A (square 64)) true;
        Malloc h_B (mem_size_B (square 64)) true;
        Malloc h_C (mem_size_C (square 64) (square 64)) false;
        Print MsgAllocCFailed ].
Proof.
  apply (null_h_C_ends_the_run (out_of_memory_for h_C) 32 (square 64) (square 64)
           initial_world); [reflexivity..| |]; simpl; lia.
Defined.

Lemma malloc_either env p bytes w :
  malloc env p bytes w =
    (Done (), set_host p (if malloc_ok env p then Some (fresh env bytes) else None)
                (log (Malloc p bytes (malloc_ok env p)) w)).
Proof. unfold malloc. by destruct (malloc_ok env p). Qed.

(** X16: the byte count [sizeof(float) * size_A] is an [unsigned int].  For
    a matrix A of [2^30] up to [2^31 - 1] elements it wraps around, [h_A]
    is allocated with [2^30] elements too few, and [ConstantInit], which
    still goes through all [size_A] elements, stores past its end. *)
Theorem wrapped_byte_count_overruns_h_A env block_size dimsA dimsB w :
  malloc_ok env h_A = true →
  2 ^ 30 <= dim_x dimsA * dim_y dimsA < 2 ^ 31 →
  mem_size_A dimsA = sizeof_float * (dim_x dimsA * dim_y dimsA - 2 ^ 30) ∧
  (MatrixMultiply env block_size dimsA dimsB w).1 = Fault.
Proof.
  intros HA Hs.
  assert (Hm : mem_size_A dimsA = sizeof_float * (dim_x dimsA * dim_y dimsA - 2 ^ 30)).
  { unfold mem_size_A. rewrite (u32_small (dim_x dimsA * dim_y dimsA)) by lia.
    rewrite u32_wraps_once by (unfold sizeof_float; lia). unfold sizeof_float. lia. }
  split; [done|].
  unfold MatrixMultiply. cbv zeta. fold (mem_size_A dimsA). rewrite Hm.
  rewrite !(u32_small (dim_x dimsA * dim_y dimsA)) by lia.
  rewrite !(to_int_small (dim_x dimsA * dim_y dimsA)) by lia.
  erewrite bind_run_Done by (unfold malloc; rewrite HA; reflexivity).
  erewrite bind_run_Done by apply malloc_either.
  erewrite bind_run_Fault; [reflexivity|].
  apply ConstantInit_overrun_fault. wsimpl. cbn [default id].
  rewrite length_fresh, Z.mul_comm, Z.div_mul by done. lia.
Qed.

Lemma wrapped_byte_count_witness :
  mem_size_A (square 32768) = sizeof_float * (32768 * 32768 - 2 ^ 30) ∧
  (MatrixMultiply calm 32 (square 32768) (square 32768) initial_world).1 = Fault.
Proof.
  apply (wrapped_byte_count_overruns_h_A calm 32 (square 32768) (square 32768)
           initial_world); [reflexivity|]. simpl. lia.
Defined.

(** ** Launches and validation in [MatrixMultiply] *)

Lemma filter_launch_replicate n dimsA dimsB bs g t :
  filter (λ e, is_launch e = true) (replicate n (launch_event dimsA dimsB bs g t)) =
    replicate n (launch_event dimsA dimsB bs g t).
Proof.
  induction n as [|n IH]; [done|]. cbn [replicate].
  rewrite filter_cons_True by done. by rewrite IH.
Qed.

Lemma filter_launch_error_report dimsA C :
  filter (λ e, is_launch e = true) (error_report dimsA C) = [].
Proof.
  unfold error_report. induction (failing_elements dimsA C) as [|iv l IH]; [done|].
  rewrite fmap_cons, filter_cons_False by done. exact IH.
Qed.

(** X17: a call of [MatrixMultiply] that returns has launched the kernel
    301 times, once to warm up and [nIter = 300] times between the two
    timing events, every time with the same instantiation, grid, block and
    arguments. *)
Theorem kernel_is_launched_301_times env block_size dimsA dimsB w c w' :
  MatrixMultiply env block_size dimsA dimsB w = (Done c, w') →
  ∃ evs,
    trace w' = trace w ++ evs ∧
    filter (λ e, is_launch e = true) evs =
      replicate 301 (the_launch block_size dimsA dimsB).
Proof.
  intros H. apply MatrixMultiply_Done in H as (hC & _ & Ht & _).
  eexists. split; [exact Ht|].
  unfold setup_events, the_launch. rewrite !filter_app.
  rewrite filter_launch_replicate, filter_launch_error_report.
  reflexivity.
Qed.

Lemma launch_count_witness :
  let r := MatrixMultiply calm 8 (square 16) (square 16) initial_world in
  r.1 = Done EXIT_FAILURE ∧
  ∃ evs,
    trace r.2 = trace initial_world ++ evs ∧
    filter (λ e, is_launch e = true) evs =
      replicate 301 (the_launch 8 (square 16) (square 16)).
Proof.
  assert (H : (MatrixMultiply calm 8 (square 16) (square 16) initial_world).1
              = Done EXIT_FAILURE) by (vm_compute; reflexivity).
  split; [exact H|].
  exact (kernel_is_launched_301_times calm 8 (square 16) (square 16) initial_world
           EXIT_FAILURE _ (run_Done _ _ _ H)).
Defined.

(** The tolerance test compares with [>], which is false for a NaN: an
    element of [C] that is a NaN or infinite makes [rel_err] a NaN and is
    not reported. *)
Lemma non_finite_within_tolerance v dimsA :
  not_a_finite_number v → out_of_tolerance v dimsA = false.
Proof.
  unfold out_of_tolerance, rel_err, F64.gt, F64.div, F32.sub, SFsub.
  destruct v as [s|s| |s m e]; try done; intros _.
  destruct (reference dimsA) as [s'|s'| |s' m' e'], s; try destruct s'; try done;
    cbn; try done.
Qed.

(** X18: the validation cannot see a NaN or an infinity.  When every
    element the loop visits is one, a call that returns prints
    [Result = PASS] and returns [EXIT_SUCCESS]. *)
Theorem non_finite_results_pass_validation env block_size dimsA dimsB w c w' :
  MatrixMultiply env block_size dimsA dimsB w = (Done c, w') →
  ∃ hC evs,
    trace w' = trace w ++ evs ∧ Received h_C hC ∈ evs ∧
    (Forall not_a_finite_number (take (checked dimsA dimsB) hC) →
     c = EXIT_SUCCESS ∧ Print (MsgResult true) ∈ evs).
Proof.
  intros H. apply MatrixMultiply_Done in H as (hC & _ & Ht & ->).
  exists hC. eexists. split; [exact Ht|]. split.
  { rewrite !elem_of_app, !elem_of_cons. tauto. }
  intros Hnf.
  assert (forallb (λ v, negb (out_of_tolerance v dimsA)) (take (checked dimsA dimsB) hC)
          = true) as ->.
  { apply forallb_forall. intros v Hv. apply list_elem_of_In in Hv.
    rewrite Forall_forall in Hnf.
    by rewrite (non_finite_within_tolerance v dimsA) by (by apply Hnf). }
  split; [done|]. rewrite !elem_of_app, !elem_of_cons. tauto.
Qed.

Lemma non_finite_results_witness :
  let r := MatrixMultiply (with_junk (λ _, S754_nan)) 32 (square 16) (square 16)
             initial_world in
  r.1 = Done EXIT_SUCCESS ∧
  ∃ hC evs,
    trace r.2 = trace initial_world ++ evs ∧ Received h_C hC ∈ evs ∧
    (Forall not_a_finite_number (take (checked (square 16) (square 16)) hC) →
     EXIT_SUCCESS = EXIT_SUCCESS ∧ Print (MsgResult true) ∈ evs).
Proof.
  assert (H : (MatrixMultiply (with_junk (λ _, S754_nan)) 32 (square 16) (square 16)
                 initial_world).1 = Done EXIT_SUCCESS) by (vm_compute; reflexivity).
  split; [exact H|].
  exact (non_finite_results_pass_validation (with_junk (λ _, S754_nan)) 32
           (square 16) (square 16) initial_world EXIT_SUCCESS _ (run_Done _ _ _ H)).
Defined.

(** X19: B square, every size a multiple of a supported tile edge, no
    call failing: whatever fresh memory holds and however the launches are
    scheduled, [MatrixMultiply] returns [EXIT_SUCCESS] as soon as the
    [float] sum of [wA] copies of [1.0f * 0.01f] is within tolerance of
    [wA * 0.01f]. *)
Theorem driver_passes_when_B_is_square env bs tiles rows w :
  (∀ p, malloc_ok env p = true) →
  (∀ c, cuda_ok env c = true) →
  (∀ n l, schedule env n l ≡ₚ l) →
  bs = 16 ∨ bs = 32 → 0 <= tiles → 0 <= rows →
  tiles * bs * (rows * bs) < 2 ^ 30 → tiles * bs * (tiles * bs) < 2 ^ 30 →
  out_of_tolerance
    (repeated_sum F32.zero F32.add (F32.mul F32.one valB) (Z.to_nat (tiles * bs)))
    (Dim3 (tiles * bs) (rows * bs) 1) = false →
  (MatrixMultiply env bs (Dim3 (tiles * bs) (rows * bs) 1)
     (Dim3 (tiles * bs) (tiles * bs) 1) w).1 = Done EXIT_SUCCESS.
Proof. intros. by apply MatrixMultiply_on_square_B. Qed.

Lemma driver_passes_witness :
  (MatrixMultiply calm 16 (Dim3 (2 * 16) (1 * 16) 1) (Dim3 (2 * 16) (2 * 16) 1)
     initial_world).1 = Done EXIT_SUCCESS.
Proof.
  apply (driver_passes_when_B_is_square calm 16 2 1 initial_world);
    [reflexivity|reflexivity|reflexivity|by left|lia|lia|lia|lia|].
  vm_compute. reflexivity.
Defined.

(** X20: [main] with [-wA], [-hA], [-wB], [-hB] that make B square and
    every size a multiple of 32 ([wA = wB = hB = 32 * tiles],
    [hA = 32 * rows] with [rows < 2^27]), A and B of fewer than [2^30]
    elements, in an environment where no call fails: the process ends with
    status 0 as soon as the [float] sum of [wA] copies of [1.0f * 0.01f] is
    within tolerance of [wA * 0.01f]. *)
Theorem main_passes_when_B_is_square env tiles rows w :
  device_found env = true →
  (∀ p, malloc_ok env p = true) →
  (∀ c, cuda_ok env c = true) →
  (∀ n l, schedule env n l ≡ₚ l) →
  0 <= tiles → 0 <= rows < 2 ^ 27 →
  tiles * 32 * (rows * 32) < 2 ^ 30 → tiles * 32 * (tiles * 32) < 2 ^ 30 →
  out_of_tolerance
    (repeated_sum F32.zero F32.add (F32.mul F32.one valB) (Z.to_nat (tiles * 32)))
    (Dim3 (tiles * 32) (rows * 32) 1) = false →
  (main env (Cmdline false (Some (tiles * 32)) (Some (rows * 32))
               (Some (tiles * 32)) (Some (tiles * 32))) w).1 = Exit EXIT_SUCCESS.
Proof.
  intros Hdev Hm Hc Hs Ht Hr HA HB Hok.
  unfold main, findCudaDevice, configured_dimsA, configured_dimsB.
  rewrite Hdev. cbv zeta. cbn [flag_help flag_wA flag_hA flag_wB flag_hB default from_option id dim_x dim_y].
  assert (0 <= tiles * 32 < 2 ^ 32) by nia.
  rewrite !(u32_small (tiles * 32)), !(u32_small (rows * 32)) by lia.
  rewrite Z.eqb_refl.
  do 5 run_with ltac:(reflexivity).
  apply run_then_exit.
  apply (MatrixMultiply_on_square_B env Hm Hc Hs 32 tiles rows); try done; [by right|lia].
Qed.

Lemma main_passes_witness :
  (main calm (Cmdline false (Some (1 * 32)) (Some (2 * 32)) (Some (1 * 32)) (Some (1 * 32)))
     initial_world).1 = Exit EXIT_SUCCESS.
Proof.
  apply (main_passes_when_B_is_square calm 1 2 initial_world);
    [reflexivity|reflexivity|reflexivity|reflexivity|lia|lia|lia|lia|].
  vm_compute. reflexivity.
Defined.

(** X21: started without arguments (320 x 320 matrices, tile edge 32) in
    an environment where no call fails, the program ends with status 0,
    whatever fresh memory holds and however the threads of each launch are
    scheduled. *)
Theorem program_passes_in_its_default_configuration env :
  device_found env = true →
  (∀ p, malloc_ok env p = true) →
  (∀ c, cuda_ok env c = true) →
  (∀ n l, schedule env n l ≡ₚ l) →
  (main env (Cmdline false None None None None) initial_world).1 = Exit EXIT_SUCCESS.
Proof. apply default_configuration_passes. Qed.

Lemma default_configuration_witness :
  (main calm (Cmdline false None None None None) initial_world).1 = Exit EXIT_SUCCESS.
Proof.
  apply (program_passes_in_its_default_configuration calm); reflexivity.
Defined.

(** ** A tile edge of zero *)

Lemma never_returns_bind_l {A B} (c : prog A) (k : A → prog B) :
  never_returns c → never_returns (c ≫= k).
Proof.
  intros Hc w b w' H. apply bind_Done in H as (a & w1 & H & _). by apply Hc in H.
Qed.

Lemma never_returns_bind_r {A B} (c : prog A) (k : A → prog B) :
  (∀ a, never_returns (k a)) → never_returns (c ≫= k).
Proof.
  intros Hk w b w' H. apply bind_Done in H as (a & w1 & _ & H). by apply Hk in H.
Qed.

Lemma never_returns_fault {A} : never_returns (fault : prog A).
Proof. intros w a w' H. discriminate H. Qed.

Lemma emits_fault_bind {A B} P (k : A → prog B) : emits P (fault ≫= k).
Proof. intros w. exists []. by rewrite app_nil_r. Qed.

(** X22: [MatrixMultiply] does not look at [block_size] before dividing by
    it.  With a [block_size] that is zero as an [unsigned int], every run
    that gets as far as the grid computation divides by zero there: no
    call returns and none launches the kernel. *)
Theorem zero_block_size_divides_by_zero env block_size dimsA dimsB :
  u32 block_size = 0 →
  never_returns (MatrixMultiply env block_size dimsA dimsB) ∧
  emits (λ e, is_launch e = false) (MatrixMultiply env block_size dimsA dimsB).
Proof.
  intros Hbs. unfold MatrixMultiply. cbv zeta. cbn [dim_x dim_y]. rewrite Hbs.
  change ((0 =? 0) || (0 =? 0)) with true. cbv iota. split.
  - do 12 (apply never_returns_bind_r; intros ?).
    apply never_returns_bind_l, never_returns_fault.
  - repeat first
      [ apply emits_fault_bind
      | apply emits_bind; [|intros ?]
      | by apply emits_printf | by apply emits_malloc
      | by apply emits_is_NULL | by apply emits_ConstantInit
      | by apply emits_checkCudaErrors
      | apply emits_if | apply emits_ret | apply emits_exit ].
Qed.

Lemma zero_block_size_witness :
  never_returns (MatrixMultiply calm 0 (square 32) (square 32)) ∧
  emits (λ e, is_launch e = false) (MatrixMultiply calm 0 (square 32) (square 32)).
Proof.
  apply (zero_block_size_divides_by_zero calm 0 (square 32) (square 32)).
  reflexivity.
Defined.

(** * Tile size *)

Lemma bind_Exit {A B} (c : prog A) (k : A → prog B) w code w' :
  (c ≫= k) w = (Exit code, w') →
  c w = (Exit code, w') ∨ ∃ a w1, c w = (Done a, w1) ∧ k a w1 = (Exit code, w').
Proof.
  unfold mbind, prog_bind. destruct (c w) as [[a|code'|] w1]; intros H.
  - right. by exists a, w1.
  - left. by injection H as -> ->.
  - discriminate H.
Qed.

(** The trace of a run only grows. *)
Lemma trace_bind {A B} (c : prog A) (k : A → prog B) w :
  (∀ a, emits (λ _, True) (k a)) →
  ∃ evs, trace ((c ≫= k) w).2 = trace (c w).2 ++ evs.
Proof.
  intros Hk. unfold mbind, prog_bind. destruct (c w) as [[a|code|] w1]; cbn [snd].
  - destruct (Hk a w1) as (evs & Ht & _). by exists evs.
  - exists []. by rewrite app_nil_r.
  - exists []. by rewrite app_nil_r.
Qed.

(** A launch is recorded whether or not it is defined. *)
Lemma launch_for_trace env bs grid threads dimsA dimsB w :
  trace (launch_for env bs grid threads dimsA dimsB w).2 =
    trace w ++ [launch_event dimsA dimsB bs grid threads].
Proof.
  unfold launch_for, launch_event, launch_kernel.
  destruct (bs =? 16), (device w d_C), (device w d_A), (device w d_B); try done;
    by destruct (MatrixMulCUDA_float _ _ _ _ _ _ _ _).
Qed.

(** Discharges [emits (λ _, True) c] for a piece [c] of the driver. *)
Ltac emits_anything :=
  repeat first
    [ apply emits_bind; [|intros ?]
    | by apply emits_printf | by apply emits_malloc | by apply emits_free
    | by apply emits_is_NULL | by apply emits_ConstantInit
    | by apply emits_checkCudaErrors | by apply emits_check_loop
    | by apply emits_launch_for | by apply emits_timed_loop
    | by apply emits_emit
    | apply emits_if | apply emits_ret | apply emits_exit | apply emits_fault ].

Section NoTileSizeCheck.
Variable env : environment.
Variable block_size : Z.
Variables dimsA dimsB : dim3.

(** [MatrixMultiply] has two exits, and neither asks for the tile size:
    the one after a [NULL] [h_C] and the one inside [checkCudaErrors]. *)
Lemma MatrixMultiply_exit_causes w code w' :
  MatrixMultiply env block_size dimsA dimsB w = (Exit code, w') →
  code = EXIT_FAILURE ∧ (malloc_ok env h_C = false ∨ ∃ c, cuda_ok env c = false).
Proof.
  intros H. split.
  { by apply MatrixMultiply_reports_failure in H as [? _]. }
  destruct (malloc_ok env h_C) eqn:Ec; [right|by left].
  unfold MatrixMultiply in H. cbv zeta in H.
  do 4 (apply bind_Exit in H as [H|(? & ? & _ & H)];
        [exfalso; revert H;
         first [ apply (exits_with_malloc env (λ _ _, False))
               | apply (exits_with_ConstantInit (λ _ _, False)) ]|]).
  apply bind_Exit in H as [H|(? & ? & Hs & H)];
    [exfalso; revert H; apply (exits_with_malloc env (λ _ _, False))|].
  apply malloc_Done in Hs. rewrite Ec in Hs. subst.
  apply bind_Exit in H as [H|(? & ? & Hs & H)];
    [exfalso; revert H; apply (exits_with_is_NULL (λ _ _, False))|].
  apply is_NULL_Done in Hs as [-> ->]. wsimpl H.
  apply bind_Exit in H as [H|(? & ? & Hs & H)]; [discriminate H|].
  apply mret_Done in Hs as [-> ->].
  match type of H with ?rest ?w0 = _ =>
    assert (He : exits_with (λ _ _, ∃ call, cuda_ok env call = false) rest)
  end.
  { exits_with_driver. }
  exact (He _ _ _ H).
Qed.

Hypothesis mallocs_succeed : ∀ p, malloc_ok env p = true.
Hypothesis calls_succeed : ∀ c, cuda_ok env c = true.
Hypothesis A_fits : 0 <= dim_x dimsA * dim_y dimsA < 2 ^ 30.
Hypothesis B_fits : 0 <= dim_x dimsB * dim_y dimsB < 2 ^ 30.
Hypothesis block_size_nonzero : u32 block_size ≠ 0.

(** Nothing between the entry of [MatrixMultiply] and its first launch
    depends on the tile size, but the division by it. *)
Lemma MatrixMultiply_reaches_the_launch w :
  ∃ evs,
    trace (MatrixMultiply env block_size dimsA dimsB w).2 = trace w ++ evs ∧
    evs !! 9%nat = Some (the_launch block_size dimsA dimsB).
Proof.
  assert (HlenA : Z.to_nat (sizeof_float * (dim_x dimsA * dim_y dimsA) / sizeof_float)
                  = Z.to_nat (dim_x dimsA * dim_y dimsA)).
  { by rewrite Z.mul_comm, Z.div_mul. }
  assert (HlenB : Z.to_nat (sizeof_float * (dim_x dimsB * dim_y dimsB) / sizeof_float)
                  = Z.to_nat (dim_x dimsB * dim_y dimsB)).
  { by rewrite Z.mul_comm, Z.div_mul. }
  unfold MatrixMultiply, the_launch, grid, threads. cbv zeta. cbn [dim_x dim_y].
  rewrite !(u32_small (dim_x dimsA * dim_y dimsA)),
          !(u32_small (dim_x dimsB * dim_y dimsB)) by lia.
  rewrite !(u32_small (sizeof_float * _)) by (unfold sizeof_float; lia).
  rewrite !(to_int_small (dim_x dimsA * dim_y dimsA)),
          !(to_int_small (dim_x dimsB * dim_y dimsB)) by lia.
  erewrite bind_run_Done by (by apply malloc_run).
  erewrite bind_run_Done by (by apply malloc_run).
  erewrite bind_run_Done
    by (eapply ConstantInit_run; [reflexivity|by rewrite length_fresh]).
  erewrite bind_run_Done
    by (eapply ConstantInit_run; [reflexivity|by rewrite length_fresh]).
  erewrite bind_run_Done by (by apply malloc_run).
  erewrite bind_run_Done by reflexivity.
  wsimpl.
  erewrite bind_run_Done by reflexivity.
  do 3 (erewrite bind_run_Done by (by apply checkCudaErrors_run)).
  do 2 (erewrite bind_run_Done
          by (apply checkCudaErrors_run; try done;
              eapply cuda_effect_HostToDevice;
              [reflexivity|reflexivity|by rewrite length_replicate
              |by rewrite length_fresh])).
  rewrite (proj2 (Z.eqb_neq (u32 block_size) 0)) by done. cbn [orb].
  erewrite bind_run_Done by reflexivity.
  erewrite bind_run_Done by reflexivity.
  match goal with |- ∃ evs, trace ((?first ≫= ?rest) ?w0).2 = _ ∧ _ =>
    destruct (trace_bind first rest w0) as (evs & ->); [intros ?; emits_anything|]
  end.
  rewrite launch_for_trace. wsimpl. rewrite <- !app_assoc.
  eexists. split; [reflexivity|]. reflexivity.
Qed.

End NoTileSizeCheck.

(** C6, as the code has it: [MatrixMultiply] has no check of the tile size.
    - It leaves through [exit] only when [h_C] could not be allocated or a
      runtime call failed, whatever [block_size] is.
    - When the allocations and the runtime calls succeed, A and B have
      fewer than [2^30] elements and [block_size] is not zero as an
      [unsigned int], the tenth thing the call does is to launch the
      kernel: the instantiation 16 when [block_size] is 16 and the
      instantiation 32 for every other value, with blocks of
      [block_size] x [block_size] threads.
    - Every launch of every run has that instantiation and block shape;
      [main] passes 32, so every launch of the program is the
      instantiation 32 with 32 x 32 threads. *)
Theorem tile_size_selects_instantiation :
  (∀ env block_size dimsA dimsB w code,
     (MatrixMultiply env block_size dimsA dimsB w).1 = Exit code →
     code = EXIT_FAILURE ∧ (malloc_ok env h_C = false ∨ ∃ c, cuda_ok env c = false)) ∧
  (∀ env block_size dimsA dimsB w,
     (∀ p, malloc_ok env p = true) → (∀ c, cuda_ok env c = true) →
     0 <= dim_x dimsA * dim_y dimsA < 2 ^ 30 →
     0 <= dim_x dimsB * dim_y dimsB < 2 ^ 30 →
     u32 block_size ≠ 0 →
     ∃ evs,
       trace (MatrixMultiply env block_size dimsA dimsB w).2 = trace w ++ evs ∧
       evs !! 9%nat =
         Some (Launch (if block_size =? 16 then 16 else 32)
                 (Dim3 (dim_x dimsB / u32 block_size) (dim_y dimsA / u32 block_size) 1)
                 (Dim3 (u32 block_size) (u32 block_size) 1)
                 (to_int (dim_x dimsA)) (to_int (dim_x dimsB)))) ∧
  (∀ env block_size dimsA dimsB,
     emits (launches_as (if block_size =? 16 then 16 else 32) (threads block_size))
           (MatrixMultiply env block_size dimsA dimsB)) ∧
  (∀ env cl, emits (launches_as 32 (Dim3 32 32 1)) (main env cl)).
Proof.
  split; [|split; [|split]].
  - intros env bs dimsA dimsB w code H.
    destruct (MatrixMultiply env bs dimsA dimsB w) as [r w'] eqn:E.
    cbn in H. subst r. by eapply MatrixMultiply_exit_causes.
  - intros env bs dimsA dimsB w Hm Hc HA HB Hbs.
    by apply MatrixMultiply_reaches_the_launch.
  - intros env bs dimsA dimsB. apply emits_MatrixMultiply.
    + by intros [].
    + done.
  - intros env cl. apply emits_main.
    + by intros [].
    + done.
Qed.

(** The theorem at tile size 8 in the environment [calm]. *)
Lemma tile_size_witness :
  ∃ evs,
    trace (MatrixMultiply calm 8 (square 16) (square 16) initial_world).2 =
      trace initial_world ++ evs ∧
    evs !! 9%nat =
      Some (Launch (if 8 =? 16 then 16 else 32)
              (Dim3 (dim_x (square 16) / u32 8) (dim_y (square 16) / u32 8) 1)
              (Dim3 (u32 8) (u32 8) 1)
              (to_int (dim_x (square 16))) (to_int (dim_x (square 16)))).
Proof.
  destruct tile_size_selects_instantiation as (_ & Hlaunch & _).
  apply (Hlaunch calm 8 (square 16) (square 16) initial_world);
    [reflexivity|reflexivity|simpl; lia|simpl; lia|].
  vm_compute. discriminate.
Defined.

(** C6, counterexample: called with tile size 8 the driver reports no
    configuration error and does not leave through [exit]; it launches the
    instantiation 32 with 8 x 8 blocks, 301 times, and returns. *)
Lemma tile_size_8_is_launched :
  let r := MatrixMultiply calm 8 (square 16) (square 16) initial_world in
  r.1 = Done EXIT_FAILURE ∧
  trace r.2 !! 9%nat = Some (Launch 32 (Dim3 2 2 1) (Dim3 8 8 1) 16 16) ∧
  length (filter (λ e, is_launch e = true) (trace r.2)) = 301%nat.
Proof. vm_compute. done. Qed.
